(** * ShareLink: the ephemeral share registry

    A shallow embedding of the share registry of the ShareLink repository
    and the properties its specification states about it.

    Two implementations of the registry live in the repository:
    - [Server]: the single-file server, [server.js] (routes [/api/upload],
      [/share/:slug], [/api/share/:slug], and the one-minute sweeper);
    - [Backend]: the modular backend, [backend/models/Share.js] with the
      routes [backend/routes/share.js] and [backend/routes/upload.js].

    Around them: [ServerRoutes] and [BackendRoutes] (the info, listing,
    QR and delete routes), [Client] (how the two pages find the slug in a
    link), [FileManager] ([backend/utils/FileManager.js]) and
    [Newsletter] ([backend/models/Newsletter.js] with its routes).

    Conventions of the embedding.
    - A JavaScript string is a [string] of bytes (its UTF-8 encoding).
    - A JavaScript number is an exact integer or [NaN] ([Js.JsNum]); the
      rounding of doubles beyond 2^53 is not modelled.
    - The [Map] [shares] is an insertion-ordered association list
      ([JsMap]), as [Map.prototype.entries] iterates it.
    - [Math.random], [Date.now] and [uuidv4] are inputs of the operation
      that calls them.
    - The file system is a [Fs.Disk]; [fs.unlinkSync] may throw.
    - SHA-256 ([crypto.createHash('sha256')]) is computed, over 32-bit
      words held in machine integers. *)

From Stdlib Require Import ZArith List String Ascii Bool Lia Uint63.
Import ListNotations.

(* ================================================================== *)
(** * Part I: the embedding *)
(* ================================================================== *)

(** ** SHA-256 (FIPS 180-4), as [crypto.createHash('sha256')] computes it *)

Module Sha256.
Local Open Scope uint63_scope.

Definition mask32 : int := 4294967295.

(** A 32-bit word is an [int] below 2^32; every operation that can leave
    that range is cut back with [w32]. *)
Definition w32 (x : int) : int := x land mask32.

Definition add32 (x y : int) : int := w32 (x + y).

Definition rotr (n x : int) : int := (x >> n) lor (w32 (x << (32 - n))).

Definition shr (n x : int) : int := x >> n.

Definition Ch (x y z : int) : int := (x land y) lxor ((x lxor mask32) land z).

Definition Maj (x y z : int) : int :=
  ((x land y) lxor (x land z)) lxor (y land z).

Definition bsig0 (x : int) : int := (rotr 2 x lxor rotr 13 x) lxor rotr 22 x.

Definition bsig1 (x : int) : int := (rotr 6 x lxor rotr 11 x) lxor rotr 25 x.

Definition ssig0 (x : int) : int := (rotr 7 x lxor rotr 18 x) lxor shr 3 x.

Definition ssig1 (x : int) : int := (rotr 17 x lxor rotr 19 x) lxor shr 10 x.

(** The constants are derived the way the standard defines them: from the
    square and cube roots of the first primes. *)
Definition is_prime (n : Z) : bool :=
  (1 <? n)%Z &&
  forallb (fun d => negb (n mod d =? 0)%Z || (n <=? d)%Z)
          (map Z.of_nat (seq 2 18)).

Definition primes64 : list Z :=
  Eval vm_compute in filter is_prime (map Z.of_nat (seq 2 310)).

Fixpoint croot_bits (bits : nat) (n r : Z) : Z :=
  match bits with
  | O => r
  | S b =>
      let c := (r + Z.shiftl 1 (Z.of_nat b))%Z in
      croot_bits b n (if (c * c * c <=? n)%Z then c else r)
  end.

(** Integer cube root, for arguments below 2^144. *)
Definition icbrt (n : Z) : Z := croot_bits 48 n 0.

(** First 32 bits of the fractional part of the cube root of each of the
    first 64 primes. *)
Definition K : list int :=
  Eval vm_compute in
    map (fun p => of_Z (Z.land (icbrt (p * 2 ^ 96)) 4294967295)) primes64.

(** First 32 bits of the fractional part of the square root of each of the
    first 8 primes. *)
Definition H0 : list int :=
  Eval vm_compute in
    map (fun p => of_Z (Z.land (Z.sqrt (p * 2 ^ 64)) 4294967295))
        (firstn 8 primes64).

Definition bit_int (b : bool) (i : int) : int := if b then 1 << i else 0.

Definition byte_of_ascii (c : ascii) : int :=
  let '(Ascii b0 b1 b2 b3 b4 b5 b6 b7) := c in
  bit_int b0 0 lor bit_int b1 1 lor bit_int b2 2 lor bit_int b3 3 lor
  bit_int b4 4 lor bit_int b5 5 lor bit_int b6 6 lor bit_int b7 7.

Definition testbit (x i : int) : bool := ((x >> i) land 1 =? 1).

Definition ascii_of_byte (x : int) : ascii :=
  Ascii (testbit x 0) (testbit x 1) (testbit x 2) (testbit x 3)
        (testbit x 4) (testbit x 5) (testbit x 6) (testbit x 7).

(** [hash.update(s)] feeds the bytes of the string. *)
Definition bytes_of_string (s : string) : list int :=
  map byte_of_ascii (list_ascii_of_string s).

Definition be_bytes (n : nat) (x : int) : list int :=
  map (fun i => (x >> (8 * of_Z (Z.of_nat i))) land 255) (rev (seq 0 n)).

(** Padding: the bit 1, zeros up to 56 modulo 64 bytes, and the length in
    bits as a 64-bit big-endian integer. *)
Definition pad (msg : list int) : list int :=
  let l := List.length msg in
  let k := Z.to_nat ((55 - Z.of_nat l) mod 64) in
  (msg ++ [128] ++ repeat 0 k ++ be_bytes 8 (8 * of_Z (Z.of_nat l)))%list.

Fixpoint words_of (fuel : nat) (bs : list int) : list int :=
  match fuel, bs with
  | S f, b0 :: b1 :: b2 :: b3 :: rest =>
      ((b0 << 24) lor ((b1 << 16) lor ((b2 << 8) lor b3))) :: words_of f rest
  | _, _ => []
  end.

(** The 64 rounds. The message schedule is kept as the window of its last
    16 words: [win] starts as the block and each round appends
    W(t+16) = ssig1 W(t+14) + W(t+9) + ssig0 W(t+1) + W(t). *)
Fixpoint rounds (ks win st : list int) : list int :=
  match ks, win, st with
  | k :: ks', w0 :: win', [a; b; c; d; e; f; g; h] =>
      let t1 := add32 (add32 (add32 (add32 h (bsig1 e)) (Ch e f g)) k) w0 in
      let t2 := add32 (bsig0 a) (Maj a b c) in
      let wnew :=
        add32 (add32 (add32 (ssig1 (nth 13 win' 0)) (nth 8 win' 0))
                     (ssig0 (nth 0 win' 0))) w0 in
      rounds ks' (win' ++ [wnew])%list
             [add32 t1 t2; a; b; c; add32 d t1; e; f; g]
  | _, _, _ => st
  end.

Definition compress (st block : list int) : list int :=
  map (fun p => add32 (fst p) (snd p)) (combine st (rounds K block st)).

Fixpoint blocks (fuel : nat) (ws st : list int) : list int :=
  match fuel with
  | O => st
  | S f =>
      match ws with
      | [] => st
      | _ => blocks f (skipn 16 ws) (compress st (firstn 16 ws))
      end
  end.

Definition sha256_words (msg : list int) : list int :=
  let p := pad msg in
  let ws := words_of (List.length p) p in
  blocks (List.length ws) ws H0.

Definition hexdigit (n : int) : ascii :=
  ascii_of_byte (if n <? 10 then 48 + n else 87 + n).

Definition hex_of_word (x : int) : list ascii :=
  map (fun i => hexdigit ((x >> (4 * of_Z (Z.of_nat i))) land 15))
      (rev (seq 0 8)).

(** [.digest('hex')]: 64 lower-case hexadecimal digits. *)
Definition sha256_hex (msg : list int) : string :=
  string_of_list_ascii (flat_map hex_of_word (sha256_words msg)).

End Sha256.

(** ** JavaScript values and built-ins the registry relies on *)

Module Js.
Local Open Scope Z_scope.

(** A number: an exact integer, or [NaN]. *)
Inductive JsNum : Type :=
| Num (z : Z)
| NaN.

(** Truthiness of a number: [0] and [NaN] are falsy. *)
Definition num_truthy (n : JsNum) : bool :=
  match n with
  | Num z => negb (z =? 0)
  | NaN => false
  end.

Definition num_add (a b : JsNum) : JsNum :=
  match a, b with
  | Num x, Num y => Num (x + y)
  | _, _ => NaN
  end.

Definition num_mul (a b : JsNum) : JsNum :=
  match a, b with
  | Num x, Num y => Num (x * y)
  | _, _ => NaN
  end.

(** Comparisons with [NaN] are false. *)
Definition num_lt (a b : JsNum) : bool :=
  match a, b with
  | Num x, Num y => x <? y
  | _, _ => false
  end.

Definition num_gt (a b : JsNum) : bool := num_lt b a.

Definition num_ge (a b : JsNum) : bool :=
  match a, b with
  | Num x, Num y => y <=? x
  | _, _ => false
  end.

(** Truthiness of a string: only the empty string is falsy. *)
Definition str_truthy (s : string) : bool :=
  match s with
  | EmptyString => false
  | String _ _ => true
  end.

(** Truthiness of a value that is a string or [undefined]/[null]. *)
Definition opt_truthy (o : option string) : bool :=
  match o with
  | Some s => str_truthy s
  | None => false
  end.

Definition code (c : ascii) : Z := Z.of_N (N_of_ascii c).

Definition in_range (lo hi : Z) (c : ascii) : bool :=
  (lo <=? code c) && (code c <=? hi).

(** [\d] *)
Definition is_digit (c : ascii) : bool := in_range 48 57 c.

(** [[a-zA-Z0-9_-]] *)
Definition is_slug_char (c : ascii) : bool :=
  in_range 97 122 c || in_range 65 90 c || in_range 48 57 c ||
  (code c =? 95) || (code c =? 45).

Fixpoint all_chars (p : ascii -> bool) (s : string) : bool :=
  match s with
  | EmptyString => true
  | String c r => p c && all_chars p r
  end.

(** [/^\d{4}$/.test(s)] *)
Definition test_four_digits (s : string) : bool :=
  (String.length s =? 4)%nat && all_chars is_digit s.

(** [/^[a-zA-Z0-9_-]+$/.test(s)] *)
Definition test_slug_pattern (s : string) : bool :=
  str_truthy s && all_chars is_slug_char s.

(** The ASCII white space: tab, line feed, vertical tab, form feed,
    carriage return and the space. *)
Definition is_space (c : ascii) : bool :=
  in_range 9 13 c || (code c =? 32).

(** The two bytes encode U+00A0. *)
Definition is_space2 (a b : ascii) : bool :=
  (code a =? 194) && (code b =? 160).

(** The three bytes encode U+1680, U+2000..U+200A, U+2028, U+2029,
    U+202F, U+205F, U+3000 or U+FEFF. *)
Definition is_space3 (a b c : ascii) : bool :=
  ((code a =? 225) && (code b =? 154) && (code c =? 128)) ||
  ((code a =? 226) && (code b =? 128) &&
   (in_range 128 138 c || (code c =? 168) || (code c =? 169) ||
    (code c =? 175))) ||
  ((code a =? 226) && (code b =? 129) && (code c =? 159)) ||
  ((code a =? 227) && (code b =? 128) && (code c =? 128)) ||
  ((code a =? 239) && (code b =? 187) && (code c =? 191)).

(** The white space [parseInt] skips at the head of its argument: the
    white space and line terminators of the language, ASCII or not. *)
Fixpoint skip_spaces (s : string) : string :=
  match s with
  | String a r =>
      if is_space a then skip_spaces r
      else
        match r with
        | String b r1 =>
            if is_space2 a b then skip_spaces r1
            else
              match r1 with
              | String c r2 =>
                  if is_space3 a b c then skip_spaces r2 else s
              | EmptyString => s
              end
        | EmptyString => s
        end
  | EmptyString => s
  end.

Definition digit_value (radix : Z) (c : ascii) : option Z :=
  let v :=
    if in_range 48 57 c then code c - 48
    else if in_range 97 122 c then code c - 87
    else if in_range 65 90 c then code c - 55
    else 99 in
  if v <? radix then Some v else None.

(** The longest prefix of digits of the radix, read as a number;
    [None] when that prefix is empty. *)
Fixpoint read_digits (radix : Z) (s : string) (acc : option Z) : option Z :=
  match s with
  | String c r =>
      match digit_value radix c with
      | Some v =>
          read_digits radix r
            (Some (match acc with Some a => a * radix + v | None => v end))
      | None => acc
      end
  | EmptyString => acc
  end.

(** [parseInt(s)] with no radix: leading white space, a sign, an optional
    [0x]/[0X] prefix, then the digits; [NaN] when there is none. The
    number read is exact: the rounding of a value beyond 2^53 to a double
    is not modelled. *)
Definition parseInt (s : string) : JsNum :=
  let s1 := skip_spaces s in
  let '(sign, s2) :=
    match s1 with
    | String "-"%char r => (-1, r)
    | String "+"%char r => (1, r)
    | _ => (1, s1)
    end in
  let '(radix, s3) :=
    match s2 with
    | String "0"%char (String "x"%char r) => (16, r)
    | String "0"%char (String "X"%char r) => (16, r)
    | _ => (10, s2)
    end in
  match read_digits radix s3 None with
  | Some n => Num (sign * n)
  | None => NaN
  end.

End Js.

(** ** The JavaScript [Map], insertion-ordered *)

Module JsMap.

Section WithValues.
Context {V : Type}.

Definition t : Type := list (string * V).

(** [new Map()] *)
Definition empty : t := [].

(** [m.get(k)] *)
Fixpoint get (m : t) (k : string) : option V :=
  match m with
  | [] => None
  | (k', v) :: r => if String.eqb k k' then Some v else get r k
  end.

(** [m.has(k)] *)
Definition has (m : t) (k : string) : bool :=
  match get m k with
  | Some _ => true
  | None => false
  end.

(** [m.set(k, v)]: an existing key keeps its place and takes the new
    value; a new key is appended. *)
Fixpoint set (m : t) (k : string) (v : V) : t :=
  match m with
  | [] => [(k, v)]
  | (k', v') :: r =>
      if String.eqb k k' then (k', v) :: r else (k', v') :: set r k v
  end.

(** [m.delete(k)] *)
Definition delete (m : t) (k : string) : t :=
  filter (fun e => negb (String.eqb k (fst e))) m.

(** [m.entries()], in insertion order. *)
Definition entries (m : t) : list (string * V) := m.

Definition keys (m : t) : list string := map fst m.

(** A [Map] holds a key at most once. *)
Definition wf (m : t) : Prop := NoDup (keys m).

End WithValues.

Arguments t : clear implicits.

End JsMap.

(** ** The file system, as far as the registry touches it *)

Module Fs.

(** The paths that exist, and those among them that cannot be removed
    (permissions, a busy file): [fs.unlinkSync] throws on a path that does
    not exist or cannot be removed. *)
Record Disk : Type := mkDisk {
  present : list string;
  locked : list string
}.

Definition mem (p : string) (l : list string) : bool :=
  existsb (String.eqb p) l.

(** [fs.existsSync(p)] *)
Definition existsSync (d : Disk) (p : string) : bool := mem p (present d).

(** [fs.unlinkSync(p)]: the disk afterwards, and [false] when it threw. *)
Definition unlinkSync (d : Disk) (p : string) : Disk * bool :=
  if mem p (present d) && negb (mem p (locked d))
  then (mkDisk (filter (fun q => negb (String.eqb p q)) (present d))
               (locked d), true)
  else (d, false).

(** One attempt to remove a file: the path, and whether it succeeded
    (a failure is caught and logged, ['Error deleting file:']). *)
Definition Attempt : Type := (string * bool)%type.

(** [paths.forEach(p => { try { fs.unlinkSync(p) } catch (err) { log } })] *)
Fixpoint unlink_each (d : Disk) (paths : list string)
  : Disk * list Attempt :=
  match paths with
  | [] => (d, [])
  | p :: r =>
      let '(d1, ok) := unlinkSync d p in
      let '(d2, log) := unlink_each d1 r in
      (d2, (p, ok) :: log)
  end.

(** What multer's disk storage did before the handler runs. *)
Definition write_files (d : Disk) (paths : list string) : Disk :=
  mkDisk (present d ++ paths) (locked d).

End Fs.

(** ** Multer's view of an uploaded file ([req.files]) *)

Module Multer.

Record File : Type := mkFile {
  originalname : string;
  path : string;
  size : Z;
  mimetype : string;
  filename : string
}.

End Multer.

(** ** The single-file server, [server.js] *)

Module Server.
Local Open Scope Z_scope.

(** An entry of [shareData.files] (lines 92-97). *)
Record FileEntry : Type := mkFileEntry {
  originalName : string;
  path : string;
  size : Z;
  mimetype : string
}.

(** [shareData] (lines 90-102). [pin] is the digest or [null];
    [expiresAt] is a number or [null]. *)
Record Share : Type := mkShare {
  id : string;
  files : list FileEntry;
  createdAt : Z;
  downloads : Z;
  pin : option string;
  expiresAt : option Js.JsNum
}.

(** The server's state: the [shares] map (line 15) and the disk. *)
Record State : Type := mkState {
  shares : JsMap.t Share;
  disk : Fs.Disk
}.

Definition init : State := mkState JsMap.empty (Fs.mkDisk [] []).

(** [crypto.createHash('sha256').update(pin).digest('hex')]
    (lines 73-75). *)
Definition hashPin (p : string) : string :=
  Sha256.sha256_hex (Sha256.bytes_of_string p).

(** The [do ... while (shares.has(slug))] loop (lines 66-68) over the
    successive values of [Math.random().toString(36).substring(2, 8)];
    [None] when every value supplied is taken (the loop is still
    running). *)
Fixpoint randomSlug (m : JsMap.t Share) (draws : list string)
  : option string :=
  match draws with
  | [] => None
  | s :: rest => if JsMap.has m s then randomSlug m rest else Some s
  end.

(** [generateSlug(customSlug)] (lines 61-70). *)
Definition generateSlug (m : JsMap.t Share) (customSlug : option string)
  (draws : list string) : option string :=
  match customSlug with
  | Some c =>
      if Js.str_truthy c && negb (JsMap.has m c) then Some c
      else randomSlug m draws
  | None => randomSlug m draws
  end.

(** The fields of [req.body] an upload form can carry. The handler reads
    [pin], [customSlug] and [ttl] (line 82). *)
Record UploadBody : Type := mkBody {
  b_pin : option string;
  b_customSlug : option string;
  b_ttl : option string;
  b_maxDownloads : option string
}.

(** What the handler draws from its environment: [uuidv4()], the two
    readings of [Date.now()] and the values of [Math.random()]. *)
Record UploadEnv : Type := mkEnv {
  e_uuid : string;
  e_now_created : Z;
  e_now_expiry : Z;
  e_draws : list string
}.

Inductive UploadResponse : Type :=
| Upload400                       (* 'No files uploaded' *)
| UploadOk (slug : string) (filesCount : Z) (totalSize : Z).

Definition entry_of (f : Multer.File) : FileEntry :=
  mkFileEntry (Multer.originalname f) (Multer.path f) (Multer.size f)
              (Multer.mimetype f).

(** [ttl ? Date.now() + (parseInt(ttl) * 60 * 1000) : null] (line 101) *)
Definition expiry_of (ttl : option string) (now : Z) : option Js.JsNum :=
  match ttl with
  | Some t =>
      if Js.str_truthy t
      then Some (Js.num_add (Js.Num now)
                   (Js.num_mul (Js.num_mul (Js.parseInt t) (Js.Num 60))
                               (Js.Num 1000)))
      else None
  | None => None
  end.

(** [pin ? hashPin(pin) : null] (line 100) *)
Definition pin_of (p : option string) : option string :=
  match p with
  | Some s => if Js.str_truthy s then Some (hashPin s) else None
  | None => None
  end.

(** [POST /api/upload] (lines 80-121), up to the insertion of the record
    and the response of the path on which nothing throws. [None]: the slug
    loop has not ended. *)
Definition upload (st : State) (body : UploadBody) (fs : list Multer.File)
  (env : UploadEnv) : option (State * UploadResponse) :=
  match fs with
  | [] => Some (st, Upload400)
  | _ :: _ =>
      match generateSlug (shares st) (b_customSlug body) (e_draws env) with
      | None => None
      | Some slug =>
          let shareData :=
            mkShare (e_uuid env) (map entry_of fs) (e_now_created env) 0
                    (pin_of (b_pin body))
                    (expiry_of (b_ttl body) (e_now_expiry env)) in
          Some (mkState (JsMap.set (shares st) slug shareData) (disk st),
                UploadOk slug (Z.of_nat (List.length fs))
                         (fold_left (fun sum f => sum + Multer.size f) fs 0))
      end
  end.

Inductive DownloadResponse : Type :=
| Download404                     (* 'Share not found or expired' *)
| Download401                     (* 'PIN required or incorrect' *)
| DownloadFile (f : FileEntry)    (* the single file is sent *)
| DownloadZip (fs : list FileEntry) (* the archive of the files *)
| DownloadMissing.                (* a file to send is not on the disk *)

(** [!pin || hashPin(pin) !== share.pin] (line 154), negated: the check a
    PIN-protected share applies to the PIN of the query. *)
Definition verify (supplied : option string) (digest : string) : bool :=
  match supplied with
  | Some p => Js.str_truthy p && String.eqb (hashPin p) digest
  | None => false
  end.

Definition bump (s : Share) : Share :=
  mkShare (id s) (files s) (createdAt s) (downloads s + 1) (pin s)
          (expiresAt s).

(** Lines 159-180: [share.downloads++], which updates the record held by
    the map, then the single file ([res.sendFile]) or the archive of the
    files. Neither branch looks at the disk before the counter has moved:
    when a backing file is not there, [res.sendFile] fails (Express
    answers 404) or the archive lacks the file, [DownloadMissing], and
    the request has been counted. *)
Definition send (st : State) (slug : string) (share : Share)
  : State * DownloadResponse :=
  let st' := mkState (JsMap.set (shares st) slug (bump share)) (disk st) in
  match files share with
  | [f] =>
      (st', if Fs.existsSync (disk st) (path f)
            then DownloadFile f else DownloadMissing)
  | fs =>
      (st', if forallb (fun f => Fs.existsSync (disk st) (path f)) fs
            then DownloadZip fs else DownloadMissing)
  end.

(** [GET /share/:slug] (lines 143-181); [qpin] is [req.query.pin]. *)
Definition download (st : State) (slug : string) (qpin : option string)
  : State * DownloadResponse :=
  match JsMap.get (shares st) slug with
  | None => (st, Download404)
  | Some share =>
      match pin share with
      | Some digest =>
          if Js.str_truthy digest && negb (verify qpin digest)
          then (st, Download401)
          else send st slug share
      | None => send st slug share
      end
  end.

Inductive DeleteResponse : Type :=
| Delete404                       (* 'Share not found' *)
| Delete200.                      (* success: true *)

(** [DELETE /api/share/:slug] (lines 217-236): the state afterwards, the
    response, and the attempts made to remove files. *)
Definition deleteShare (st : State) (slug : string)
  : State * DeleteResponse * list Fs.Attempt :=
  match JsMap.get (shares st) slug with
  | None => (st, Delete404, [])
  | Some share =>
      let '(d, log) := Fs.unlink_each (disk st) (map path (files share)) in
      (mkState (JsMap.delete (shares st) slug) d, Delete200, log)
  end.

(** [share.expiresAt && now > share.expiresAt] (line 44) *)
Definition expired (now : Z) (s : Share) : bool :=
  match expiresAt s with
  | Some e => Js.num_truthy e && Js.num_gt (Js.Num now) e
  | None => false
  end.

(** The body of the sweeper's loop for one entry (lines 44-56). *)
Definition sweep_entry (now : Z) (acc : State * list Fs.Attempt)
  (e : string * Share) : State * list Fs.Attempt :=
  let '(st, log) := acc in
  if expired now (snd e)
  then
    let '(d, log') := Fs.unlink_each (disk st) (map path (files (snd e))) in
    (mkState (JsMap.delete (shares st) (fst e)) d, (log ++ log')%list)
  else (st, log).

(** One cycle of the sweeper (lines 41-58) at [Date.now() = now]: the
    loop over [shares.entries()], which removes the entry it is at. *)
Definition sweep (now : Z) (st : State) : State * list Fs.Attempt :=
  fold_left (sweep_entry now) (JsMap.entries (shares st)) (st, []).

(** Some entry of [es] has the key [k] and is expired at [now]: what a
    cycle over the entries [es] removes. *)
Definition doomed (now : Z) (es : list (string * Share)) (k : string)
  : bool :=
  existsb (fun e => String.eqb k (fst e) && expired now (snd e)) es.

(** The operations that change the registry. The other routes
    ([/api/share/:slug/info], [/api/qr/:slug], [/api/shares], [/]) read
    the store and leave it as it is. *)
Inductive Op : Type :=
| OpUpload (body : UploadBody) (fs : list Multer.File) (env : UploadEnv)
| OpDownload (slug : string) (qpin : option string)
| OpDelete (slug : string)
| OpSweep (now : Z).

(** One operation; an upload comes after multer has written its files. *)
Definition step (st : State) (op : Op) : option State :=
  match op with
  | OpUpload body fs env =>
      let st0 := mkState (shares st)
                   (Fs.write_files (disk st) (map Multer.path fs)) in
      match upload st0 body fs env with
      | Some (st', _) => Some st'
      | None => None
      end
  | OpDownload slug qpin => Some (fst (download st slug qpin))
  | OpDelete slug => Some (fst (fst (deleteShare st slug)))
  | OpSweep now => Some (fst (sweep now st))
  end.

Fixpoint run (st : State) (ops : list Op) : option State :=
  match ops with
  | [] => Some st
  | op :: rest =>
      match step st op with
      | Some st' => run st' rest
      | None => None
      end
  end.

End Server.

(** ** The modular backend: [backend/models/Share.js] and its routes *)

Module Backend.
Local Open Scope Z_scope.

Section WithToNumber.

(** [Number(s)] on a string, the conversion behind [isNaN(s)] and behind
    the comparison of a number with a string: a built-in of the language,
    kept abstract. *)
Variable toNumber : string -> Js.JsNum.

(** [isNaN(s)] *)
Definition isNaN (s : string) : bool :=
  match toNumber s with
  | Js.NaN => true
  | Js.Num _ => false
  end.

(** An entry of [shareData.files] ([routes/upload.js]). *)
Record FileEntry : Type := mkFileEntry {
  originalName : string;
  path : string;
  size : Z;
  mimetype : string;
  filename : string
}.

Record Metadata : Type := mkMetadata {
  userAgent : option string;
  ip : option string
}.

(** The record [createShare] stores. [maxDownloads] is the form field as
    it came, a string, or [null]. *)
Record Share : Type := mkShare {
  id : string;
  files : list FileEntry;
  createdAt : Z;
  downloads : Z;
  maxDownloads : option string;
  pin : option string;
  expiresAt : option Js.JsNum;
  metadata : Metadata
}.

(** The [shares] map, the disk, and the slugs of the deletions that
    [setTimeout] has pending, oldest first. *)
Record State : Type := mkState {
  shares : JsMap.t Share;
  disk : Fs.Disk;
  timers : list string
}.

Definition init : State := mkState JsMap.empty (Fs.mkDisk [] []) [].

Fixpoint randomSlug (m : JsMap.t Share) (draws : list string)
  : option string :=
  match draws with
  | [] => None
  | s :: rest => if JsMap.has m s then randomSlug m rest else Some s
  end.

(** [generateSlug(customSlug)]: a free custom slug is returned when it
    matches [/^[a-zA-Z0-9_-]+$/]. *)
Definition generateSlug (m : JsMap.t Share) (customSlug : option string)
  (draws : list string) : option string :=
  match customSlug with
  | Some c =>
      if Js.str_truthy c && negb (JsMap.has m c) && Js.test_slug_pattern c
      then Some c
      else randomSlug m draws
  | None => randomSlug m draws
  end.

Definition salt : string := "sharelink_salt".

(** [crypto.createHash('sha256').update(pin + salt).digest('hex')] *)
Definition hashPin (p : string) : string :=
  Sha256.sha256_hex (Sha256.bytes_of_string (p ++ salt)).

(** [validatePin(pin)] *)
Definition validatePin (p : string) : bool := Js.test_four_digits p.

(** [getShare(slug)] *)
Definition getShare (st : State) (slug : string) : option Share :=
  JsMap.get (shares st) slug.

(** The argument of [createShare]. *)
Record ShareData : Type := mkShareData {
  d_files : list FileEntry;
  d_customSlug : option string;
  d_pin : option string;
  d_ttl : option string;
  d_maxDownloads : option string;
  d_userAgent : option string;
  d_ip : option string
}.

Record Env : Type := mkEnv {
  e_uuid : string;
  e_now_created : Z;
  e_now_expiry : Z;
  e_draws : list string
}.

Definition truthy_or_null (o : option string) : option string :=
  if Js.opt_truthy o then o else None.

Definition pin_of (p : option string) : option string :=
  match p with
  | Some s => if Js.str_truthy s then Some (hashPin s) else None
  | None => None
  end.

Definition expiry_of (ttl : option string) (now : Z) : option Js.JsNum :=
  match ttl with
  | Some t =>
      if Js.str_truthy t
      then Some (Js.num_add (Js.Num now)
                   (Js.num_mul (Js.num_mul (Js.parseInt t) (Js.Num 60))
                               (Js.Num 1000)))
      else None
  | None => None
  end.

(** [createShare(shareData)]: the state afterwards, the slug and the
    record. [None]: the slug loop has not ended. *)
Definition createShare (st : State) (d : ShareData) (env : Env)
  : option (State * string * Share) :=
  match generateSlug (shares st) (d_customSlug d) (e_draws env) with
  | None => None
  | Some slug =>
      let share :=
        mkShare (e_uuid env) (d_files d) (e_now_created env) 0
                (truthy_or_null (d_maxDownloads d))
                (pin_of (d_pin d))
                (expiry_of (d_ttl d) (e_now_expiry env))
                (mkMetadata (d_userAgent d) (d_ip d)) in
      Some (mkState (JsMap.set (shares st) slug share) (disk st) (timers st),
            slug, share)
  end.

(** [deleteShare(slug)]: the state afterwards, the boolean returned, and
    the attempts made to remove files. *)
Definition deleteShare (st : State) (slug : string)
  : State * bool * list Fs.Attempt :=
  match JsMap.get (shares st) slug with
  | None => (st, false, [])
  | Some share =>
      let '(d, log) := Fs.unlink_each (disk st) (map path (files share)) in
      (mkState (JsMap.delete (shares st) slug) d (timers st), true, log)
  end.

(** [share.maxDownloads && share.downloads >= share.maxDownloads] *)
Definition limit_reached (s : Share) : bool :=
  match maxDownloads s with
  | Some m => Js.str_truthy m && Js.num_ge (Js.Num (downloads s)) (toNumber m)
  | None => false
  end.

Definition bump (s : Share) : Share :=
  mkShare (id s) (files s) (createdAt s) (downloads s + 1) (maxDownloads s)
          (pin s) (expiresAt s) (metadata s).

(** [incrementDownloads(slug)]: the counter goes up, and a deletion is
    scheduled ([setTimeout(() => deleteShare(slug), 1000)]) when the
    limit is reached. *)
Definition incrementDownloads (st : State) (slug : string) : State :=
  match JsMap.get (shares st) slug with
  | None => st
  | Some share =>
      let share' := bump share in
      mkState (JsMap.set (shares st) slug share') (disk st)
              (if limit_reached share'
               then (timers st ++ [slug])%list else timers st)
  end.

(** [validateSharePin(slug, inputPin)] *)
Definition validateSharePin (st : State) (slug : string)
  (inputPin : option string) : bool :=
  match JsMap.get (shares st) slug with
  | None => false
  | Some share =>
      match pin share with
      | Some h =>
          if Js.str_truthy h
          then match inputPin with
               | Some p => Js.str_truthy p && String.eqb (hashPin p) h
               | None => false
               end
          else true
      | None => true
      end
  end.

(** [share.expiresAt && Date.now() > share.expiresAt] *)
Definition expired (now : Z) (s : Share) : bool :=
  match expiresAt s with
  | Some e => Js.num_truthy e && Js.num_gt (Js.Num now) e
  | None => false
  end.

Inductive DownloadResponse : Type :=
| ShareNotFound                   (* 404 SHARE_NOT_FOUND *)
| ShareExpired                    (* 404 SHARE_EXPIRED *)
| LimitReached                    (* 410 DOWNLOAD_LIMIT_REACHED *)
| InvalidPin                      (* 401 INVALID_PIN *)
| FileNotFound                    (* 404 FILE_NOT_FOUND *)
| NoFilesFound                    (* 404 NO_FILES_FOUND *)
| SentFile (f : FileEntry)
| SentZip (fs : list FileEntry).

(** The response counts as a download served. *)
Definition served (r : DownloadResponse) : bool :=
  match r with
  | SentFile _ | SentZip _ => true
  | _ => false
  end.

(** What is sent once the request is authorized and counted. *)
Definition serve (d : Fs.Disk) (share : Share) : DownloadResponse :=
  match files share with
  | [f] => if Fs.existsSync d (path f) then SentFile f else FileNotFound
  | fs =>
      match filter (fun f => Fs.existsSync d (path f)) fs with
      | [] => NoFilesFound
      | found => SentZip found
      end
  end.

(** [GET /:slug/download] of [routes/share.js]: [qpin] is [req.query.pin],
    [hpin] the [x-download-pin] header, [now] is [Date.now()]. *)
Definition download (st : State) (slug : string)
  (qpin hpin : option string) (now : Z) : State * DownloadResponse :=
  match getShare st slug with
  | None => (st, ShareNotFound)
  | Some share =>
      if expired now share
      then (fst (fst (deleteShare st slug)), ShareExpired)
      else if limit_reached share
      then (fst (fst (deleteShare st slug)), LimitReached)
      else
        let inputPin := if Js.opt_truthy qpin then qpin else hpin in
        if negb (validateSharePin st slug inputPin)
        then (st, InvalidPin)
        else
          let st' := incrementDownloads st slug in
          (st', serve (disk st') share)
  end.

(** The form fields of an upload. *)
Record UploadBody : Type := mkBody {
  b_pin : option string;
  b_customSlug : option string;
  b_ttl : option string;
  b_maxDownloads : option string
}.

Inductive UploadResponse : Type :=
| NoFiles                         (* 400 NO_FILES *)
| NoFile                          (* 400 NO_FILE *)
| InvalidPinFormat                (* 400 INVALID_PIN_FORMAT *)
| InvalidTtl                      (* 400 INVALID_TTL *)
| InvalidMaxDownloads             (* 400 INVALID_MAX_DOWNLOADS *)
| Created (slug : string) (share : Share).

Definition entry_of (f : Multer.File) : FileEntry :=
  mkFileEntry (Multer.originalname f) (Multer.path f) (Multer.size f)
              (Multer.mimetype f) (Multer.filename f).

(** [v && (isNaN(v) || parseInt(v) < 1 || parseInt(v) > hi)] *)
Definition out_of_range (v : option string) (hi : Z) : bool :=
  match v with
  | Some s =>
      Js.str_truthy s &&
      (isNaN s || Js.num_lt (Js.parseInt s) (Js.Num 1)
               || Js.num_gt (Js.parseInt s) (Js.Num hi))
  | None => false
  end.

Definition bad_pin_format (p : option string) : bool :=
  match p with
  | Some s => Js.str_truthy s && negb (validatePin s)
  | None => false
  end.

Definition shareData_of (body : UploadBody) (fs : list Multer.File)
  (ua ipaddr : option string) : ShareData :=
  mkShareData (map entry_of fs) (b_customSlug body) (b_pin body)
              (b_ttl body) (b_maxDownloads body) ua ipaddr.

(** [POST /] of [routes/upload.js], on the path on which nothing
    throws. *)
Definition upload (st : State) (body : UploadBody) (fs : list Multer.File)
  (ua ipaddr : option string) (env : Env)
  : option (State * UploadResponse) :=
  match fs with
  | [] => Some (st, NoFiles)
  | _ :: _ =>
      if bad_pin_format (b_pin body) then Some (st, InvalidPinFormat)
      else if out_of_range (b_ttl body) 10080 then Some (st, InvalidTtl)
      else if out_of_range (b_maxDownloads body) 1000
      then Some (st, InvalidMaxDownloads)
      else
        match createShare st (shareData_of body fs ua ipaddr) env with
        | None => None
        | Some (st', slug, share) => Some (st', Created slug share)
        end
  end.

(** [POST /single] of [routes/upload.js] ("Same validation as multiple
    files": the PIN format is the only one it repeats). *)
Definition uploadSingle (st : State) (body : UploadBody)
  (file : option Multer.File) (ua ipaddr : option string) (env : Env)
  : option (State * UploadResponse) :=
  match file with
  | None => Some (st, NoFile)
  | Some f =>
      if bad_pin_format (b_pin body) then Some (st, InvalidPinFormat)
      else
        match createShare st (shareData_of body [f] ua ipaddr) env with
        | None => None
        | Some (st', slug, share) => Some (st', Created slug share)
        end
  end.

(** One cycle of the sweeper of [models/Share.js]. *)
Definition sweep_entry (now : Z) (acc : State * list Fs.Attempt)
  (e : string * Share) : State * list Fs.Attempt :=
  let '(st, log) := acc in
  if expired now (snd e)
  then
    let '(d, log') := Fs.unlink_each (disk st) (map path (files (snd e))) in
    (mkState (JsMap.delete (shares st) (fst e)) d (timers st),
     (log ++ log')%list)
  else (st, log).

Definition sweep (now : Z) (st : State) : State * list Fs.Attempt :=
  fold_left (sweep_entry now) (JsMap.entries (shares st)) (st, []).

(** The oldest pending timer fires: [deleteShare(slug)]. *)
Definition fire_timer (st : State) : State :=
  match timers st with
  | [] => st
  | slug :: rest =>
      fst (fst (deleteShare (mkState (shares st) (disk st) rest) slug))
  end.

(** What reaches one share: requests for its slug, and pending timers
    going off. *)
Inductive Event : Type :=
| EvDownload (qpin hpin : option string) (now : Z)
| EvTimer.

(** The responses to the download requests among the events. *)
Fixpoint replay (st : State) (slug : string) (evs : list Event)
  : State * list DownloadResponse :=
  match evs with
  | [] => (st, [])
  | EvDownload qpin hpin now :: rest =>
      let '(st1, r) := download st slug qpin hpin now in
      let '(st2, rs) := replay st1 slug rest in
      (st2, r :: rs)
  | EvTimer :: rest => replay (fire_timer st) slug rest
  end.

Definition served_count (rs : list DownloadResponse) : Z :=
  Z.of_nat (List.length (filter served rs)).

(** The share under [slug], when there is one, has the limit [m]. *)
Definition limited (slug m : string) (st : State) : Prop :=
  forall s, getShare st slug = Some s -> maxDownloads s = Some m.


(** The downloads a share has left: [maxDownloads - downloads], when it
    is in the store and [maxDownloads] reads as the number [n]. *)
Definition remaining (st : State) (slug : string) (n : Z) : Z :=
  match getShare st slug with
  | Some s => Z.max 0 (n - downloads s)
  | None => 0
  end.

End WithToNumber.

End Backend.

(** ** Deciding that the values of a list are pairwise different *)

Module Distinct.

(** A binary trie over bit strings, as a set. *)
Inductive trie : Type :=
| Leaf
| Node (here : bool) (zero one : trie).

Fixpoint mem (bs : list bool) (t : trie) {struct t} : bool :=
  match t with
  | Leaf => false
  | Node h z o =>
      match bs with
      | [] => h
      | b :: r => if b then mem r o else mem r z
      end
  end.

(** Insertion; [None] when the bit string is already in the set. *)
Fixpoint ins (bs : list bool) (t : trie) : option trie :=
  match bs with
  | [] =>
      match t with
      | Leaf => Some (Node true Leaf Leaf)
      | Node true _ _ => None
      | Node false z o => Some (Node true z o)
      end
  | b :: r =>
      let '(h, z, o) :=
        match t with
        | Leaf => (false, Leaf, Leaf)
        | Node h z o => (h, z, o)
        end in
      if b then option_map (fun o' => Node h z o') (ins r o)
      else option_map (fun z' => Node h z' o) (ins r z)
  end.

Fixpoint distinct_from (seen : trie) (l : list (list bool)) : bool :=
  match l with
  | [] => true
  | x :: r =>
      match ins x seen with
      | None => false
      | Some s => distinct_from s r
      end
  end.

Definition bits_of_ascii (c : ascii) : list bool :=
  let '(Ascii b0 b1 b2 b3 b4 b5 b6 b7) := c in
  [b0; b1; b2; b3; b4; b5; b6; b7].

(** The bits of the first eight characters of a string: two strings that
    differ there are different. *)
Definition prefix_bits (s : string) : list bool :=
  flat_map bits_of_ascii (firstn 8 (list_ascii_of_string s)).

End Distinct.

(** ** The PINs: the strings [/^\d{4}$/] accepts *)

Module Pins.

Definition digits : list ascii := list_ascii_of_string "0123456789".

Definition all : list string :=
  flat_map (fun a => flat_map (fun b => flat_map (fun c => map (fun d =>
    String a (String b (String c (String d EmptyString))))
    digits) digits) digits) digits.

End Pins.

(** ** [server.js]: the routes that read the store, and the client script *)

Module ServerRoutes.
Local Open Scope Z_scope.

(** What [GET /api/share/:slug/info] (lines 132-139) and each element of
    [GET /api/shares] (lines 203-211) report of a share. *)
Record Info : Type := mkInfo {
  filesCount : Z;
  totalSize : Z;
  createdAt : Z;
  downloads : Z;
  hasPin : bool;
  expiresAt : option Js.JsNum
}.

Definition summary (s : Server.Share) : Info :=
  mkInfo (Z.of_nat (List.length (Server.files s)))
         (fold_left (fun sum f => sum + Server.size f) (Server.files s) 0)
         (Server.createdAt s) (Server.downloads s)
         (Js.opt_truthy (Server.pin s)) (Server.expiresAt s).

(** [GET /api/share/:slug/info] (lines 124-140); [None] is the 404
    ['Share not found']. *)
Definition info (st : Server.State) (slug : string) : option Info :=
  match JsMap.get (Server.shares st) slug with
  | None => None
  | Some share => Some (summary share)
  end.

(** [GET /api/shares] (lines 202-214). *)
Definition listShares (st : Server.State) : list (string * Info) :=
  map (fun e => (fst e, summary (snd e))) (JsMap.entries (Server.shares st)).

(** [`http://localhost:${PORT}/share/${slug}`] (lines 106 and 193);
    [port] is [PORT] as the template prints it. *)
Definition shareUrl (port slug : string) : string :=
  ("http://localhost:" ++ port ++ "/share/" ++ slug)%string.

(** [GET /api/qr/:slug] (lines 184-199): the text the QR code encodes;
    [None] is the 404. *)
Definition qr (st : Server.State) (port slug : string) : option string :=
  match JsMap.get (Server.shares st) slug with
  | None => None
  | Some _ => Some (shareUrl port slug)
  end.

(** The response is the file or the archive. *)
Definition served (r : Server.DownloadResponse) : bool :=
  match r with
  | Server.DownloadFile _ | Server.DownloadZip _ => true
  | _ => false
  end.

(** The request got past the lookup and the PIN check, to
    [share.downloads++]: every response but the 404 of the lookup and
    the 401. *)
Definition counted (r : Server.DownloadResponse) : bool :=
  match r with
  | Server.Download404 | Server.Download401 => false
  | _ => true
  end.

(** A run of download requests, each a slug and the PIN of its query,
    with the response to each. *)
Fixpoint downloads_run (st : Server.State)
  (reqs : list (string * option string))
  : Server.State * list (string * Server.DownloadResponse) :=
  match reqs with
  | [] => (st, [])
  | (slug, qpin) :: rest =>
      let '(st1, r) := Server.download st slug qpin in
      let '(st2, rs) := downloads_run st1 rest in
      (st2, (slug, r) :: rs)
  end.

(** The requests for [slug] that were served. *)
Definition served_for (slug : string)
  (rs : list (string * Server.DownloadResponse)) : Z :=
  Z.of_nat (List.length
    (filter (fun e => String.eqb slug (fst e) && served (snd e)) rs)).

(** The requests for [slug] that were counted. *)
Definition counted_for (slug : string)
  (rs : list (string * Server.DownloadResponse)) : Z :=
  Z.of_nat (List.length
    (filter (fun e => String.eqb slug (fst e) && counted (snd e)) rs)).

End ServerRoutes.

(** ** Strings, as the client scripts cut them *)

Module JsString.

(** [s.split(c)] for a separator of one character. *)
Fixpoint split (c : ascii) (s : string) : list string :=
  match s with
  | EmptyString => [EmptyString]
  | String a r =>
      match split c r with
      | seg :: rest =>
          if Ascii.eqb a c then EmptyString :: seg :: rest
          else String a seg :: rest
      | [] => []
      end
  end.

(** [l.pop()]: the last element, [None] for [undefined]. *)
Fixpoint pop (l : list string) : option string :=
  match l with
  | [] => None
  | [x] => Some x
  | _ :: r => pop r
  end.

(** [l.indexOf(x)]; [None] is [-1]. *)
Fixpoint indexOf (x : string) (l : list string) : option nat :=
  match l with
  | [] => None
  | y :: r =>
      if String.eqb y x then Some O
      else match indexOf x r with
           | Some i => Some (S i)
           | None => None
           end
  end.

(** The character does not occur in the string. *)
Fixpoint free_of (c : ascii) (s : string) : bool :=
  match s with
  | EmptyString => true
  | String a r => negb (Ascii.eqb a c) && free_of c r
  end.

End JsString.

(** ** The client scripts: from a link back to a slug *)

Module Client.

(** [checkShare] and [downloadFiles] of the page [server.js] serves:
    [shareLink.split('/').pop()]. *)
Definition slug_of_link (shareLink : string) : option string :=
  JsString.pop (JsString.split "/" shareLink).

(** The link the backend returns for a share
    ([routes/upload.js]:
    [`${req.protocol}://${req.get('host')}/api/share/${slug}/download`]). *)
Definition backendUrl (protocol host slug : string) : string :=
  (protocol ++ "://" ++ host ++ "/api/share/" ++ slug ++ "/download")%string.

(** [checkShare] of the frontend's [app.js], from the second statement
    on: [shareLink] is the value of the field once [trim()] has taken the
    white space around it away. The slug is the element before the first
    ['download'] among the pieces of the link; [None] is the
    ['Invalid share link format'] notification. *)
Definition slug_of_backend_link (shareLink : string) : option string :=
  let urlParts := JsString.split "/" shareLink in
  match JsString.indexOf "download" urlParts with
  | None => None
  | Some O => None
  | Some (S i) => nth_error urlParts i
  end.

End Client.

(** ** The backend: the other routes of [routes/share.js], and the timers *)

Module BackendRoutes.
Local Open Scope Z_scope.

(** What [GET /:slug/info] reports of a share. *)
Record Info : Type := mkInfo {
  slug : string;
  filesCount : Z;
  totalSize : Z;
  createdAt : Z;
  downloads : Z;
  maxDownloads : option string;
  hasPin : bool;
  expiresAt : option Js.JsNum;
  fileNames : list string;
  isExpired : bool
}.

Inductive InfoResponse : Type :=
| InfoNotFound                    (* 404 SHARE_NOT_FOUND *)
| InfoExpired                     (* 404 SHARE_EXPIRED *)
| InfoOk (i : Info).

Definition summary (k : string) (s : Backend.Share) : Info :=
  mkInfo k (Z.of_nat (List.length (Backend.files s)))
         (fold_left (fun sum f => sum + Backend.size f) (Backend.files s) 0)
         (Backend.createdAt s) (Backend.downloads s)
         (Backend.maxDownloads s) (Js.opt_truthy (Backend.pin s))
         (Backend.expiresAt s)
         (map Backend.originalName (Backend.files s)) false.

(** [GET /:slug/info]; [now] is [Date.now()]. *)
Definition info (st : Backend.State) (k : string) (now : Z)
  : Backend.State * InfoResponse :=
  match Backend.getShare st k with
  | None => (st, InfoNotFound)
  | Some share =>
      if Backend.expired now share
      then (fst (fst (Backend.deleteShare st k)), InfoExpired)
      else (st, InfoOk (summary k share))
  end.

Inductive DeleteResponse : Type :=
| DeleteNotFound                  (* 404 SHARE_NOT_FOUND *)
| DeletePinRequired               (* 401 PIN_REQUIRED *)
| DeleteOk                        (* 200 *)
| DeleteFailed.                   (* 500 DELETE_FAILED *)

(** [DELETE /:slug]; [bpin] is the [pin] of the request body. *)
Definition deleteRoute (st : Backend.State) (k : string)
  (bpin : option string)
  : Backend.State * DeleteResponse * list Fs.Attempt :=
  match Backend.getShare st k with
  | None => (st, DeleteNotFound, [])
  | Some share =>
      if Js.opt_truthy (Backend.pin share) &&
         negb (Backend.validateSharePin st k bpin)
      then (st, DeletePinRequired, [])
      else
        let '(st', deleted, log) := Backend.deleteShare st k in
        (st', if deleted then DeleteOk else DeleteFailed, log)
  end.

(** The pending timers go off, oldest first, until none is left. *)
Fixpoint fire_n (n : nat) (st : Backend.State) : Backend.State :=
  match n with
  | O => st
  | S k => fire_n k (Backend.fire_timer st)
  end.

Definition fire_all (st : Backend.State) : Backend.State :=
  fire_n (List.length (Backend.timers st)) st.

End BackendRoutes.

(** ** [backend/utils/FileManager.js]: deleting files *)

Module FileManager.

(** [fileExists(filePath)] *)
Definition fileExists (d : Fs.Disk) (p : string) : bool :=
  Fs.existsSync d p.

(** [deleteFile(filePath)]: [true] when the file was there and was
    removed; a file that is missing, or an [unlinkSync] that throws, gives
    [false]. *)
Definition deleteFile (d : Fs.Disk) (p : string) : Fs.Disk * bool :=
  if fileExists d p then Fs.unlinkSync d p else (d, false).

(** [deleteFiles(filePaths)]: the number of files deleted. *)
Fixpoint deleteFiles (d : Fs.Disk) (paths : list string) : Fs.Disk * nat :=
  match paths with
  | [] => (d, O)
  | p :: r =>
      let '(d1, ok) := deleteFile d p in
      let '(d2, n) := deleteFiles d1 r in
      (d2, if ok then S n else n)
  end.

End FileManager.

(** ** [backend/models/Newsletter.js] and [routes/newsletter.js] *)

Module Newsletter.

Record Subscriber : Type := mkSubscriber {
  email : string;
  subscribedAt : string;
  status : string;
  source : string
}.

(** The content of [data/newsletter.json]: the entries of the map and
    [lastUpdated]. The JSON text is not modelled: what [JSON.parse] reads
    is what [JSON.stringify] wrote. *)
Record DataFile : Type := mkDataFile {
  f_subscribers : list (string * Subscriber);
  f_lastUpdated : string
}.

(** [this.subscribers], and the data file when it exists. *)
Record State : Type := mkState {
  subscribers : JsMap.t Subscriber;
  dataFile : option DataFile
}.

(** [new Map(entries)]: the entries are set one after the other. *)
Definition map_of_entries (es : list (string * Subscriber))
  : JsMap.t Subscriber :=
  fold_left (fun m e => JsMap.set m (fst e) (snd e)) es JsMap.empty.

(** The constructor and [loadSubscribers()], on the data file found. *)
Definition load (file : option DataFile) : State :=
  match file with
  | Some f => mkState (map_of_entries (f_subscribers f)) file
  | None => mkState JsMap.empty None
  end.

(** [saveSubscribers()]: [now] is [new Date().toISOString()];
    [write_ok = false] when [writeFileSync] throws before it has written
    anything, as it does on a file it cannot open (caught, logged). *)
Definition saveSubscribers (st : State) (now : string) (write_ok : bool)
  : State :=
  if write_ok
  then mkState (subscribers st)
               (Some (mkDataFile (JsMap.entries (subscribers st)) now))
  else st.

(** White space as [\s] reads it, at the head of a string: the ASCII
    white space, and the UTF-8 encodings of U+00A0, U+1680,
    U+2000..U+200A, U+2028, U+2029, U+202F, U+205F, U+3000 and U+FEFF. *)
Definition ws_at (s : string) : bool :=
  match s with
  | EmptyString => false
  | String a r =>
      let b0 := Js.code a in
      if Js.is_space a then true
      else
        match r with
        | EmptyString => false
        | String a1 r1 =>
            let b1 := Js.code a1 in
            if (b0 =? 194)%Z then (b1 =? 160)%Z
            else
              match r1 with
              | EmptyString => false
              | String a2 _ =>
                  let b2 := Js.code a2 in
                  if (b0 =? 225)%Z then (b1 =? 154)%Z && (b2 =? 128)%Z
                  else if (b0 =? 226)%Z then
                    ((b1 =? 128)%Z &&
                     (((128 <=? b2)%Z && (b2 <=? 138)%Z) ||
                      (b2 =? 168)%Z || (b2 =? 169)%Z || (b2 =? 175)%Z)) ||
                    ((b1 =? 129)%Z && (b2 =? 159)%Z)
                  else if (b0 =? 227)%Z then (b1 =? 128)%Z && (b2 =? 128)%Z
                  else if (b0 =? 239)%Z then (b1 =? 187)%Z && (b2 =? 191)%Z
                  else false
              end
        end
  end.

(** [[^\s@]], at the head of a string. *)
Definition plain_at (s : string) : bool :=
  match s with
  | EmptyString => false
  | String a _ => negb (ws_at s) && negb (Ascii.eqb a "@")
  end.

(** [[^\s@]+] followed by what [k] accepts. *)
Fixpoint plus_then (k : string -> bool) (s : string) : bool :=
  match s with
  | EmptyString => false
  | String _ r => plain_at s && (k r || plus_then k r)
  end.

(** One given character followed by what [k] accepts. *)
Definition char_then (c : ascii) (k : string -> bool) (s : string) : bool :=
  match s with
  | EmptyString => false
  | String a r => Ascii.eqb a c && k r
  end.

Definition at_end (s : string) : bool :=
  match s with
  | EmptyString => true
  | String _ _ => false
  end.

(** [isValidEmail(email)]: [/^[^\s@]+@[^\s@]+\.[^\s@]+$/.test(email)] *)
Definition isValidEmail (e : string) : bool :=
  plus_then (char_then "@" (plus_then (char_then "." (plus_then at_end)))) e.

(** The string has no ['@'] and no ASCII white space in it. *)
Definition tidy (s : string) : bool :=
  JsString.free_of "@" s &&
  Js.all_chars (fun c => negb (Js.is_space c)) s.

(** A printable ASCII character other than ['@']. *)
Definition simple (c : ascii) : bool :=
  Js.in_range 33 126 c && negb (Ascii.eqb c "@").

Inductive SubscribeResult : Type :=
| Subscribed (s : Subscriber)
| InvalidEmail                    (* throws 'Invalid email address' *)
| AlreadySubscribed.              (* throws 'Email already subscribed' *)

(** [subscribe(email)] *)
Definition subscribe (st : State) (e now : string) (write_ok : bool)
  : State * SubscribeResult :=
  if negb (isValidEmail e) then (st, InvalidEmail)
  else if JsMap.has (subscribers st) e then (st, AlreadySubscribed)
  else
    let subscriber := mkSubscriber e now "active" "website" in
    (saveSubscribers
       (mkState (JsMap.set (subscribers st) e subscriber) (dataFile st))
       now write_ok,
     Subscribed subscriber).

(** [unsubscribe(email)] *)
Definition unsubscribe (st : State) (e now : string) (write_ok : bool)
  : State * bool :=
  if JsMap.has (subscribers st) e
  then (saveSubscribers
          (mkState (JsMap.delete (subscribers st) e) (dataFile st))
          now write_ok, true)
  else (st, false).

(** [getAllSubscribers()] *)
Definition getAllSubscribers (st : State) : list Subscriber :=
  map snd (JsMap.entries (subscribers st)).

(** [getSubscriberCount()] *)
Definition getSubscriberCount (st : State) : nat :=
  List.length (subscribers st).

Inductive Response : Type :=
| EmailRequired                   (* 400 'Email is required' *)
| Rejected (r : SubscribeResult)  (* 400, the message of the error *)
| Accepted (s : Subscriber)       (* 200 *)
| Unsubscribed                    (* 200 *)
| EmailNotFound.                  (* 404 *)

(** [POST /subscribe]; [body_email] is the [email] of the body. *)
Definition subscribeRoute (st : State) (body_email : option string)
  (now : string) (write_ok : bool) : State * Response :=
  match body_email with
  | Some e =>
      if Js.str_truthy e
      then match subscribe st e now write_ok with
           | (st', Subscribed s) => (st', Accepted s)
           | (st', r) => (st', Rejected r)
           end
      else (st, EmailRequired)
  | None => (st, EmailRequired)
  end.

(** [POST /unsubscribe] *)
Definition unsubscribeRoute (st : State) (body_email : option string)
  (now : string) (write_ok : bool) : State * Response :=
  match body_email with
  | Some e =>
      if Js.str_truthy e
      then match unsubscribe st e now write_ok with
           | (st', true) => (st', Unsubscribed)
           | (st', false) => (st', EmailNotFound)
           end
      else (st, EmailRequired)
  | None => (st, EmailRequired)
  end.

(** The requests that change the list. *)
Inductive Op : Type :=
| OpSubscribe (body_email : option string) (now : string) (write_ok : bool)
| OpUnsubscribe (body_email : option string) (now : string)
    (write_ok : bool).

Definition step (st : State) (op : Op) : State :=
  match op with
  | OpSubscribe e now ok => fst (subscribeRoute st e now ok)
  | OpUnsubscribe e now ok => fst (unsubscribeRoute st e now ok)
  end.

Definition run (st : State) (ops : list Op) : State :=
  fold_left step ops st.

(** [writeFileSync] did not throw during the request. *)
Definition written (op : Op) : bool :=
  match op with
  | OpSubscribe _ _ ok | OpUnsubscribe _ _ ok => ok
  end.

(** What a restart finds is what the process holds. *)
Definition in_sync (st : State) : Prop :=
  subscribers (load (dataFile st)) = subscribers st.

(** Each entry is the subscriber of its key, as [subscribe] makes it. *)
Definition well_kept (st : State) : Prop :=
  JsMap.wf (subscribers st) /\
  forall k s, In (k, s) (subscribers st) ->
    email s = k /\ isValidEmail k = true /\
    status s = "active"%string /\ source s = "website"%string.

End Newsletter.

(* ================================================================== *)
(** * Part II: properties *)
(* ================================================================== *)

(** ** The built-ins, on examples *)

Example parseInt_examples :
  Js.parseInt "60" = Js.Num 60 /\
  Js.parseInt "  -5 minutes" = Js.Num (-5) /\
  Js.parseInt "0x1f" = Js.Num 31 /\
  Js.parseInt "1e3" = Js.Num 1 /\
  Js.parseInt "abc" = Js.NaN /\
  Js.parseInt " " = Js.NaN.
Proof. repeat split; reflexivity. Qed.

Example pattern_examples :
  Js.test_four_digits "0427" = true /\
  Js.test_four_digits "427" = false /\
  Js.test_four_digits "12a4" = false /\
  Js.test_slug_pattern "my-link_2" = true /\
  Js.test_slug_pattern "" = false /\
  Js.test_slug_pattern "my link" = false.
Proof. repeat split; reflexivity. Qed.

Example parseInt_skips_unicode_space :
  Js.parseInt (String (ascii_of_nat 194) (String (ascii_of_nat 160) " 42"))
    = Js.Num 42 /\
  Js.parseInt (String (ascii_of_nat 226) (String (ascii_of_nat 128)
                 (String (ascii_of_nat 168) "-7 days"))) = Js.Num (-7) /\
  Js.parseInt (String (ascii_of_nat 194) "42") = Js.NaN.
Proof. repeat split; reflexivity. Qed.

Example map_examples :
  let m := JsMap.set (JsMap.set (JsMap.set JsMap.empty "a" 1%Z) "b" 2%Z)
             "a" 3%Z in
  JsMap.entries m = [("a"%string, 3%Z); ("b"%string, 2%Z)] /\
  JsMap.get m "b" = Some 2%Z /\
  JsMap.has m "c" = false /\
  JsMap.entries (JsMap.delete m "a") = [("b"%string, 2%Z)].
Proof. repeat split; reflexivity. Qed.

(** ** The map *)

Section MapFacts.
Context {V : Type}.
Implicit Types (m : JsMap.t V) (k : string) (v : V).

Lemma map_has_get m k :
  JsMap.has m k = true <-> exists v, JsMap.get m k = Some v.
Proof.
  unfold JsMap.has. destruct (JsMap.get m k) as [v|].
  - split; [eauto | trivial].
  - split; [discriminate | intros [v H]; discriminate].
Qed.

Lemma map_has_false m k : JsMap.has m k = false <-> JsMap.get m k = None.
Proof.
  unfold JsMap.has. destruct (JsMap.get m k); split; congruence.
Qed.

Lemma map_get_in_keys m k v :
  JsMap.get m k = Some v -> In k (JsMap.keys m).
Proof.
  induction m as [|[k' v'] r IH]; simpl; [discriminate|].
  destruct (String.eqb_spec k k') as [->|Hne]; auto.
Qed.

Lemma map_keys_get m k :
  In k (JsMap.keys m) -> exists v, JsMap.get m k = Some v.
Proof.
  induction m as [|[k' v'] r IH]; simpl; [tauto|].
  intros [->|Hin].
  - rewrite String.eqb_refl. eauto.
  - destruct (String.eqb_spec k k'); eauto.
Qed.

Lemma map_get_in m k v : JsMap.get m k = Some v -> In (k, v) m.
Proof.
  induction m as [|[k' v'] r IH]; simpl; [discriminate|].
  destruct (String.eqb_spec k k') as [->|Hne].
  - intros [= ->]. now left.
  - intros H. right. auto.
Qed.

Lemma map_in_get m k v :
  NoDup (JsMap.keys m) -> In (k, v) m -> JsMap.get m k = Some v.
Proof.
  induction m as [|[k' v'] r IH]; simpl; [tauto|].
  intros Hnd [[= -> ->]|Hin].
  - now rewrite String.eqb_refl.
  - inversion Hnd as [|? ? Hnotin Hnd']; subst.
    destruct (String.eqb_spec k k') as [->|Hne]; auto.
    exfalso. apply Hnotin. change (In k' (map fst r)).
    apply in_map_iff. exists (k', v). auto.
Qed.

Lemma map_get_set_same m k v : JsMap.get (JsMap.set m k v) k = Some v.
Proof.
  induction m as [|[k' v'] r IH]; simpl.
  - now rewrite String.eqb_refl.
  - destruct (String.eqb_spec k k') as [->|Hne]; simpl.
    + now rewrite String.eqb_refl.
    + destruct (String.eqb_spec k k'); [contradiction|exact IH].
Qed.

Lemma map_get_set_other m k k' v :
  k <> k' -> JsMap.get (JsMap.set m k v) k' = JsMap.get m k'.
Proof.
  intros Hne. induction m as [|[k0 v0] r IH]; simpl.
  - destruct (String.eqb_spec k' k); congruence.
  - destruct (String.eqb_spec k k0) as [->|Hne0]; simpl.
    + destruct (String.eqb_spec k' k0); congruence.
    + now rewrite IH.
Qed.

(** Setting a key the map does not hold appends the entry. *)
Lemma map_set_fresh m k v :
  JsMap.has m k = false -> JsMap.set m k v = (m ++ [(k, v)])%list.
Proof.
  rewrite map_has_false.
  induction m as [|[k' v'] r IH]; simpl; [reflexivity|].
  destruct (String.eqb_spec k k') as [->|Hne]; [discriminate|].
  intros H. now rewrite IH.
Qed.

(** Setting a key the map holds leaves the keys as they are. *)
Lemma map_keys_set_present m k v :
  JsMap.has m k = true -> JsMap.keys (JsMap.set m k v) = JsMap.keys m.
Proof.
  unfold JsMap.has.
  induction m as [|[k' v'] r IH]; simpl; [discriminate|].
  destruct (String.eqb_spec k k') as [->|Hne]; simpl; [reflexivity|].
  intros H. f_equal. now apply IH.
Qed.

Lemma map_keys_set m k v :
  JsMap.keys (JsMap.set m k v) =
  if JsMap.has m k then JsMap.keys m else (JsMap.keys m ++ [k])%list.
Proof.
  destruct (JsMap.has m k) eqn:E.
  - now apply map_keys_set_present.
  - rewrite map_set_fresh by exact E. unfold JsMap.keys.
    now rewrite map_app.
Qed.

Lemma map_set_nodup m k v :
  NoDup (JsMap.keys m) -> NoDup (JsMap.keys (JsMap.set m k v)).
Proof.
  intros Hnd. rewrite map_keys_set. destruct (JsMap.has m k) eqn:E; auto.
  apply NoDup_app; [exact Hnd | repeat constructor; intros [] |].
  intros x Hin [<-|[]].
  apply map_keys_get in Hin. apply map_has_get in Hin. congruence.
Qed.

Lemma map_get_delete_same m k : JsMap.get (JsMap.delete m k) k = None.
Proof.
  induction m as [|[k' v'] r IH]; simpl; [reflexivity|].
  destruct (String.eqb_spec k k') as [->|Hne]; simpl; [exact IH|].
  destruct (String.eqb_spec k k'); [contradiction|exact IH].
Qed.

Lemma map_get_delete_other m k k' :
  k <> k' -> JsMap.get (JsMap.delete m k) k' = JsMap.get m k'.
Proof.
  intros Hne. induction m as [|[k0 v0] r IH]; simpl; [reflexivity|].
  destruct (String.eqb_spec k k0) as [->|Hne0]; simpl.
  - destruct (String.eqb_spec k' k0); congruence.
  - now rewrite IH.
Qed.

Lemma map_keys_delete m k :
  JsMap.keys (JsMap.delete m k) =
  filter (fun k' => negb (String.eqb k k')) (JsMap.keys m).
Proof.
  induction m as [|[k' v'] r IH]; simpl; [reflexivity|].
  destruct (String.eqb k k'); simpl; now rewrite <- IH.
Qed.

Lemma map_delete_nodup m k :
  NoDup (JsMap.keys m) -> NoDup (JsMap.keys (JsMap.delete m k)).
Proof.
  intros Hnd. rewrite map_keys_delete. now apply NoDup_filter.
Qed.

(** Deleting a key the map does not hold changes nothing. *)
Lemma map_delete_absent m k :
  JsMap.has m k = false -> JsMap.delete m k = m.
Proof.
  rewrite map_has_false.
  induction m as [|[k' v'] r IH]; simpl; [reflexivity|].
  destruct (String.eqb_spec k k') as [->|Hne]; [discriminate|].
  intros H. simpl. now rewrite IH.
Qed.

End MapFacts.

(** ** The file system *)

Lemma unlink_each_attempts d paths :
  map fst (snd (Fs.unlink_each d paths)) = paths.
Proof.
  revert d. induction paths as [|p r IH]; intros d; simpl; [reflexivity|].
  destruct (Fs.unlinkSync d p) as [d1 ok].
  specialize (IH d1). destruct (Fs.unlink_each d1 r) as [d2 log].
  simpl in *. now rewrite IH.
Qed.

Lemma unlinkSync_locked d p : Fs.locked (fst (Fs.unlinkSync d p)) = Fs.locked d.
Proof.
  unfold Fs.unlinkSync.
  now destruct (Fs.mem p (Fs.present d) && negb (Fs.mem p (Fs.locked d))).
Qed.

Lemma mem_filter_neq p q l :
  Fs.mem q (filter (fun x => negb (String.eqb p x)) l) =
  negb (String.eqb p q) && Fs.mem q l.
Proof.
  unfold Fs.mem. induction l as [|x r IH]; simpl.
  - now rewrite andb_false_r.
  - destruct (String.eqb_spec p x) as [->|Hpx]; simpl.
    + rewrite IH. destruct (String.eqb_spec q x) as [->|Hqx]; simpl.
      * now rewrite String.eqb_refl.
      * reflexivity.
    + rewrite IH. destruct (String.eqb_spec q x) as [->|Hqx]; simpl.
      * destruct (String.eqb_spec p x); [contradiction|reflexivity].
      * reflexivity.
Qed.

(** After one [unlinkSync] a file is on the disk exactly when it was
    there before and is not the file removed. *)
Lemma unlinkSync_exists d p q :
  Fs.existsSync (fst (Fs.unlinkSync d p)) q =
  Fs.existsSync d q &&
  negb (String.eqb p q && negb (Fs.mem p (Fs.locked d))).
Proof.
  unfold Fs.unlinkSync, Fs.existsSync.
  destruct (Fs.mem p (Fs.present d)) eqn:Hp;
    destruct (Fs.mem p (Fs.locked d)) eqn:Hl; simpl.
  - now rewrite andb_false_r, andb_true_r.
  - rewrite mem_filter_neq, andb_true_r. apply andb_comm.
  - now rewrite andb_false_r, andb_true_r.
  - rewrite andb_true_r.
    destruct (String.eqb_spec p q) as [->|Hne]; simpl.
    + now rewrite Hp.
    + now rewrite andb_true_r.
Qed.

(** After the loop, a file is on the disk exactly when it was there before
    and was not removed: it is not among the paths, or it is locked. *)
Lemma unlink_each_exists d paths q :
  Fs.existsSync (fst (Fs.unlink_each d paths)) q =
  Fs.existsSync d q && (negb (Fs.mem q paths) || Fs.mem q (Fs.locked d)).
Proof.
  revert d. induction paths as [|p r IH]; intros d; simpl.
  - now rewrite andb_true_r.
  - pose proof (unlinkSync_exists d p q) as H1.
    pose proof (unlinkSync_locked d p) as H2.
    destruct (Fs.unlinkSync d p) as [d1 ok]. simpl in H1, H2.
    specialize (IH d1). destruct (Fs.unlink_each d1 r) as [d2 log].
    simpl in *. rewrite IH, H1, H2.
    rewrite (String.eqb_sym q p).
    destruct (String.eqb_spec p q) as [->|Hne]; simpl.
    + destruct (Fs.existsSync d q), (Fs.mem q (Fs.locked d)),
        (Fs.mem q r); reflexivity.
    + now rewrite andb_true_r.
Qed.

Lemma fs_mem_in p l : In p l -> Fs.mem p l = true.
Proof.
  intros H. unfold Fs.mem. apply existsb_exists. exists p.
  split; [exact H | apply String.eqb_refl].
Qed.

(** ** [server.js]: the slug generator *)

Lemma server_randomSlug_fresh m draws slug :
  Server.randomSlug m draws = Some slug ->
  JsMap.has m slug = false /\ In slug draws.
Proof.
  induction draws as [|s r IH]; simpl; [discriminate|].
  destruct (JsMap.has m s) eqn:E.
  - intros H. destruct (IH H). auto.
  - intros [= <-]. auto.
Qed.

(** The loop ends as soon as one of the values drawn is free. *)
Lemma server_randomSlug_total m draws :
  (exists s, In s draws /\ JsMap.has m s = false) ->
  exists slug, Server.randomSlug m draws = Some slug.
Proof.
  induction draws as [|s r IH]; simpl; intros (x & Hin & Hx); [tauto|].
  destruct (JsMap.has m s) eqn:E; [|eauto].
  destruct Hin as [->|Hin]; [congruence|]. apply IH. eauto.
Qed.

Lemma server_generateSlug_fresh m custom draws slug :
  Server.generateSlug m custom draws = Some slug ->
  JsMap.has m slug = false.
Proof.
  unfold Server.generateSlug.
  destruct custom as [c|].
  - destruct (Js.str_truthy c); simpl.
    + destruct (JsMap.has m c) eqn:E; simpl.
      * intros H. now apply server_randomSlug_fresh in H.
      * now intros [= <-].
    + intros H. now apply server_randomSlug_fresh in H.
  - intros H. now apply server_randomSlug_fresh in H.
Qed.

(** A custom slug that a record owns is never returned: the generator
    goes to the random loop. *)
Lemma server_generateSlug_taken m c draws :
  JsMap.has m c = true ->
  Server.generateSlug m (Some c) draws = Server.randomSlug m draws.
Proof.
  intros H. unfold Server.generateSlug. rewrite H.
  now rewrite andb_false_r.
Qed.

(** ** [server.js]: what an upload does to the store *)

Lemma server_upload_inv st body fs env st' r :
  Server.upload st body fs env = Some (st', r) ->
  match r with
  | Server.Upload400 => st' = st /\ fs = []
  | Server.UploadOk slug _ _ =>
      fs <> [] /\
      Server.generateSlug (Server.shares st) (Server.b_customSlug body)
        (Server.e_draws env) = Some slug /\
      exists share,
        st' = Server.mkState (JsMap.set (Server.shares st) slug share)
                (Server.disk st) /\
        Server.pin share = Server.pin_of (Server.b_pin body) /\
        Server.expiresAt share =
          Server.expiry_of (Server.b_ttl body) (Server.e_now_expiry env) /\
        Server.downloads share = 0%Z /\
        Server.files share = map Server.entry_of fs
  end.
Proof.
  unfold Server.upload. destruct fs as [|f fs'].
  - intros [= <- <-]. auto.
  - destruct (Server.generateSlug _ _ _) as [slug|] eqn:E; [|discriminate].
    intros [= <- <-]. repeat split; try discriminate.
    eexists. repeat split.
Qed.

(** The record an upload inserts, and the records it leaves alone. *)
Lemma server_upload_store st body fs env st' slug n t :
  Server.upload st body fs env = Some (st', Server.UploadOk slug n t) ->
  JsMap.get (Server.shares st) slug = None /\
  (exists share, JsMap.get (Server.shares st') slug = Some share) /\
  (forall k, k <> slug ->
     JsMap.get (Server.shares st') k = JsMap.get (Server.shares st) k).
Proof.
  intros H. apply server_upload_inv in H.
  destruct H as (_ & Hgen & share & -> & _).
  apply server_generateSlug_fresh in Hgen. apply map_has_false in Hgen.
  simpl. repeat split.
  - exact Hgen.
  - exists share. apply map_get_set_same.
  - intros k Hk. apply map_get_set_other. congruence.
Qed.

(** ** [server.js]: the well-formedness of the store is invariant *)

(** Whatever is on the disk, the sending part has counted the request. *)
Lemma server_send_effect st slug share :
  fst (Server.send st slug share) =
    Server.mkState (JsMap.set (Server.shares st) slug (Server.bump share))
                   (Server.disk st) /\
  ServerRoutes.counted (snd (Server.send st slug share)) = true.
Proof.
  unfold Server.send.
  destruct (Server.files share) as [|f [|g r]]; split; try reflexivity;
    cbn [snd]; match goal with
               | |- context [if ?b then _ else _] => now destruct b
               end.
Qed.

Lemma server_download_shares st slug qpin :
  Server.shares (fst (Server.download st slug qpin)) = Server.shares st \/
  exists share,
    JsMap.get (Server.shares st) slug = Some share /\
    Server.shares (fst (Server.download st slug qpin)) =
      JsMap.set (Server.shares st) slug (Server.bump share).
Proof.
  unfold Server.download.
  destruct (JsMap.get (Server.shares st) slug) as [share|] eqn:E; auto.
  assert (Hsend : Server.shares (fst (Server.send st slug share)) =
                  JsMap.set (Server.shares st) slug (Server.bump share)).
  { now rewrite (proj1 (server_send_effect st slug share)). }
  destruct (Server.pin share) as [digest|]; [|eauto].
  destruct (Js.str_truthy digest && _); eauto.
Qed.

Lemma server_download_wf st slug qpin :
  JsMap.wf (Server.shares st) ->
  JsMap.wf (Server.shares (fst (Server.download st slug qpin))).
Proof.
  intros Hwf.
  destruct (server_download_shares st slug qpin) as [->|(s & _ & ->)]; auto.
  now apply map_set_nodup.
Qed.

Lemma server_delete_shares st slug :
  Server.shares (fst (fst (Server.deleteShare st slug))) =
  JsMap.delete (Server.shares st) slug.
Proof.
  unfold Server.deleteShare.
  destruct (JsMap.get (Server.shares st) slug) as [share|] eqn:E.
  - destruct (Fs.unlink_each _ _). reflexivity.
  - simpl. symmetry. apply map_delete_absent. now apply map_has_false.
Qed.

Lemma server_sweep_entry_wf now acc e :
  JsMap.wf (Server.shares (fst acc)) ->
  JsMap.wf (Server.shares (fst (Server.sweep_entry now acc e))).
Proof.
  destruct acc as [st log]. unfold Server.sweep_entry. simpl.
  destruct (Server.expired now (snd e)); auto.
  destruct (Fs.unlink_each _ _). simpl. apply map_delete_nodup.
Qed.

Lemma server_sweep_fold_wf now es acc :
  JsMap.wf (Server.shares (fst acc)) ->
  JsMap.wf (Server.shares (fst (fold_left (Server.sweep_entry now) es acc))).
Proof.
  revert acc. induction es as [|e r IH]; intros acc H; simpl; auto.
  apply IH. now apply server_sweep_entry_wf.
Qed.

Lemma server_step_wf st op st' :
  JsMap.wf (Server.shares st) -> Server.step st op = Some st' ->
  JsMap.wf (Server.shares st').
Proof.
  intros Hwf. destruct op as [body fs env|slug qpin|slug|now]; simpl.
  - destruct (Server.upload _ body fs env) as [[st1 r]|] eqn:E;
      [|discriminate].
    intros [= <-]. apply server_upload_inv in E. destruct r.
    + destruct E as [-> _]. exact Hwf.
    + destruct E as (_ & _ & share & -> & _). simpl.
      now apply map_set_nodup.
  - intros [= <-]. now apply server_download_wf.
  - intros [= <-]. rewrite server_delete_shares. now apply map_delete_nodup.
  - intros [= <-]. now apply server_sweep_fold_wf.
Qed.

Lemma server_run_wf ops : forall st st',
  JsMap.wf (Server.shares st) -> Server.run st ops = Some st' ->
  JsMap.wf (Server.shares st').
Proof.
  induction ops as [|op r IH]; simpl; intros st st' Hwf.
  - now intros [= <-].
  - destruct (Server.step st op) as [st1|] eqn:E; [|discriminate].
    apply IH. eapply server_step_wf; eauto.
Qed.

(** ** [server.js]: the sweeper *)

Lemma doomed_absent now (m : JsMap.t Server.Share) k :
  JsMap.get m k = None -> Server.doomed now m k = false.
Proof.
  induction m as [|[k' v'] r IH]; simpl; [reflexivity|].
  destruct (String.eqb_spec k k'); [discriminate|]. exact IH.
Qed.

(** In a well-formed map the entry of [k] alone decides. *)
Lemma doomed_get now (m : JsMap.t Server.Share) k r :
  JsMap.wf m -> JsMap.get m k = Some r ->
  Server.doomed now m k = Server.expired now r.
Proof.
  induction m as [|[k' v'] m' IH]; simpl; [discriminate|].
  intros Hwf. inversion Hwf as [|? ? Hnotin Hwf']; subst.
  destruct (String.eqb_spec k k') as [->|Hne]; simpl.
  - intros [= ->]. rewrite doomed_absent; [apply orb_false_r|].
    destruct (JsMap.get m' k') eqn:E; [|reflexivity].
    exfalso. apply Hnotin. eapply map_get_in_keys; eauto.
  - intros H. now apply IH.
Qed.

Lemma server_sweep_fold_get now k es : forall st log,
  JsMap.get (Server.shares
               (fst (fold_left (Server.sweep_entry now) es (st, log)))) k =
  if Server.doomed now es k then None else JsMap.get (Server.shares st) k.
Proof.
  induction es as [|[k' s'] r IH]; intros st log; simpl; [reflexivity|].
  destruct (Server.expired now s') eqn:Ex.
  - destruct (Fs.unlink_each _ _) as [d log']. rewrite IH. simpl.
    destruct (Server.doomed now r k); [now rewrite orb_true_r|].
    rewrite orb_false_r, andb_true_r.
    destruct (String.eqb_spec k k') as [->|Hne].
    + apply map_get_delete_same.
    + apply map_get_delete_other. congruence.
  - rewrite IH. now rewrite andb_false_r.
Qed.

(** The attempts of a cycle: the files of the expired entries, in the
    order of the map. *)
Lemma server_sweep_fold_log now es : forall st log,
  map fst (snd (fold_left (Server.sweep_entry now) es (st, log))) =
  (map fst log ++
   flat_map (fun e => map Server.path (Server.files (snd e)))
     (filter (fun e => Server.expired now (snd e)) es))%list.
Proof.
  induction es as [|[k' s'] r IH]; intros st log; simpl.
  - now rewrite app_nil_r.
  - destruct (Server.expired now s') eqn:Ex; simpl.
    + pose proof (unlink_each_attempts (Server.disk st)
                    (map Server.path (Server.files s'))) as Hat.
      destruct (Fs.unlink_each _ _) as [d log']. simpl in Hat.
      rewrite IH, map_app, <- app_assoc. f_equal. f_equal. exact Hat.
    + apply IH.
Qed.

Lemma server_sweep_get now st k :
  JsMap.wf (Server.shares st) ->
  JsMap.get (Server.shares (fst (Server.sweep now st))) k =
  match JsMap.get (Server.shares st) k with
  | Some r => if Server.expired now r then None else Some r
  | None => None
  end.
Proof.
  intros Hwf. unfold Server.sweep. rewrite server_sweep_fold_get.
  unfold JsMap.entries.
  destruct (JsMap.get (Server.shares st) k) as [r|] eqn:E.
  - now rewrite (doomed_get now _ k r Hwf E).
  - now rewrite doomed_absent.
Qed.

(** The code's test on a record whose [expiresAt] is a timestamp. *)
Lemma server_expired_num now s e :
  Server.expiresAt s = Some (Js.Num e) -> e <> 0%Z ->
  Server.expired now s = (e <? now)%Z.
Proof.
  intros He Hz. unfold Server.expired. rewrite He. simpl.
  destruct (Z.eqb_spec e 0); [contradiction|reflexivity].
Qed.

(** C9. One cycle of the sweeper of [server.js], run at time [now] on a
    store: every record whose [expiresAt] is a timestamp (a non-zero
    number, as [share.expiresAt &&] reads it) earlier than [now] is removed
    from the store, and the removal of each of its backing files is
    attempted; no record with such an [expiresAt] remains; and every
    record whose [expiresAt] is absent ([null]) is still in the store,
    unchanged. *)
Theorem sweep_removes_expired_only now st st' log :
  JsMap.wf (Server.shares st) ->
  Server.sweep now st = (st', log) ->
  (forall slug r e,
     JsMap.get (Server.shares st) slug = Some r ->
     Server.expiresAt r = Some (Js.Num e) -> e <> 0%Z -> (e < now)%Z ->
     JsMap.get (Server.shares st') slug = None /\
     forall f, In f (Server.files r) -> In (Server.path f) (map fst log)) /\
  (forall slug r e,
     JsMap.get (Server.shares st') slug = Some r ->
     Server.expiresAt r = Some (Js.Num e) -> e <> 0%Z -> ~ (e < now)%Z) /\
  (forall slug r,
     JsMap.get (Server.shares st) slug = Some r ->
     Server.expiresAt r = None ->
     JsMap.get (Server.shares st') slug = Some r).
Proof.
  intros Hwf Hsw.
  assert (Hst : st' = fst (Server.sweep now st)) by now rewrite Hsw.
  assert (Hlog : log = snd (Server.sweep now st)) by now rewrite Hsw.
  split; [|split].
  - intros slug r e Hget He Hz Hlt.
    assert (Hex : Server.expired now r = true).
    { rewrite (server_expired_num now r e He Hz). now apply Z.ltb_lt. }
    split.
    + rewrite Hst, server_sweep_get by exact Hwf. now rewrite Hget, Hex.
    + intros f Hf. rewrite Hlog. unfold Server.sweep.
      rewrite server_sweep_fold_log. simpl.
      apply in_flat_map. exists (slug, r). split.
      * apply filter_In. split; [now apply map_get_in | exact Hex].
      * simpl. now apply in_map.
  - intros slug r e Hget He Hz Hlt.
    rewrite Hst, server_sweep_get in Hget by exact Hwf.
    destruct (JsMap.get (Server.shares st) slug) as [r0|]; [|discriminate].
    destruct (Server.expired now r0) eqn:Ex; [discriminate|].
    injection Hget as ->.
    rewrite (server_expired_num now r e He Hz) in Ex.
    apply Z.ltb_ge in Ex. lia.
  - intros slug r Hget He.
    rewrite Hst, server_sweep_get by exact Hwf. rewrite Hget.
    unfold Server.expired. now rewrite He.
Qed.

(** ** [server.js]: deleting a share *)

(** C8. [DELETE /api/share/:slug] of [server.js]: on a slug the store
    does not hold it answers not-found and changes nothing; on a slug the
    store holds it answers success, the record is gone from the store
    (a lookup of the slug is then absent) while every other record stays,
    and the removal of every backing file of the record was attempted, in
    order, whether or not any of these attempts failed; a backing file
    whose removal can succeed is no longer on the disk. *)
Theorem delete_removes_record st slug :
  match JsMap.get (Server.shares st) slug with
  | None => Server.deleteShare st slug = (st, Server.Delete404, [])
  | Some share =>
      exists st' log,
        Server.deleteShare st slug = (st', Server.Delete200, log) /\
        JsMap.get (Server.shares st') slug = None /\
        map fst log = map Server.path (Server.files share) /\
        (forall k, k <> slug ->
           JsMap.get (Server.shares st') k = JsMap.get (Server.shares st) k) /\
        (forall f, In f (Server.files share) ->
           Fs.mem (Server.path f) (Fs.locked (Server.disk st)) = false ->
           Fs.existsSync (Server.disk st') (Server.path f) = false)
  end.
Proof.
  unfold Server.deleteShare.
  destruct (JsMap.get (Server.shares st) slug) as [share|] eqn:E;
    [|reflexivity].
  pose proof (unlink_each_attempts (Server.disk st)
                (map Server.path (Server.files share))) as Hat.
  pose proof (unlink_each_exists (Server.disk st)
                (map Server.path (Server.files share))) as Hex.
  destruct (Fs.unlink_each _ _) as [d log]. simpl in Hat, Hex.
  exists (Server.mkState (JsMap.delete (Server.shares st) slug) d), log.
  simpl. split; [reflexivity|]. split; [apply map_get_delete_same|].
  split; [exact Hat|]. split.
  - intros k Hk. apply map_get_delete_other. congruence.
  - intros f Hf Hfree. rewrite Hex, Hfree.
    rewrite (fs_mem_in (Server.path f)) by now apply in_map.
    apply andb_false_r.
Qed.

(** The record goes even when no file could be removed. *)
Example delete_with_locked_files :
  let f := Server.mkFileEntry "a.txt" "uploads/1-a.txt" 10 "text/plain" in
  let s := Server.mkShare "id-1" [f] 1000 0 None None in
  let st := Server.mkState [("abc123"%string, s)]
              (Fs.mkDisk ["uploads/1-a.txt"%string]
                         ["uploads/1-a.txt"%string]) in
  Server.deleteShare st "abc123" =
  (Server.mkState [] (Server.disk st), Server.Delete200,
   [("uploads/1-a.txt"%string, false)]).
Proof. reflexivity. Qed.

(** ** [server.js]: slugs identify one live record *)

(** C5. In every state the server reaches from its start by uploads,
    downloads, deletions and sweeper cycles, the store holds each slug at
    most once; the slug generator never returns a slug that is a key of
    the store; and an upload leaves every record of the store under its
    slug, the new slug being different from all of them. *)
Theorem slugs_stay_unique ops st :
  Server.run Server.init ops = Some st ->
  JsMap.wf (Server.shares st) /\
  (forall custom draws slug,
     Server.generateSlug (Server.shares st) custom draws = Some slug ->
     JsMap.has (Server.shares st) slug = false) /\
  (forall body fs env st' slug n t,
     Server.upload st body fs env = Some (st', Server.UploadOk slug n t) ->
     forall k v, JsMap.get (Server.shares st) k = Some v ->
       k <> slug /\ JsMap.get (Server.shares st') k = Some v).
Proof.
  intros Hrun. split; [|split].
  - eapply server_run_wf; [|exact Hrun]. constructor.
  - intros custom draws slug. apply server_generateSlug_fresh.
  - intros body fs env st' slug n t Hup k v Hget.
    apply server_upload_store in Hup. destruct Hup as (Hnew & _ & Hothers).
    assert (k <> slug) by congruence.
    split; [assumption|]. now rewrite Hothers.
Qed.

(** C7. An upload to [server.js] whose [customSlug] is owned by a record
    of the store: the generator goes to its random loop whatever the
    values drawn, and, as soon as one of the values drawn is free, the
    upload succeeds under a slug that is different from the custom one,
    was free, and is the loop's; the record that owned the custom slug is
    still the one found under it, and every other record is untouched. *)
Theorem custom_slug_collision_falls_back st body f fs env custom owner :
  Server.b_customSlug body = Some custom ->
  JsMap.get (Server.shares st) custom = Some owner ->
  (exists s, In s (Server.e_draws env) /\
             JsMap.has (Server.shares st) s = false) ->
  Server.generateSlug (Server.shares st) (Some custom) (Server.e_draws env) =
    Server.randomSlug (Server.shares st) (Server.e_draws env) /\
  exists st' slug n t,
    Server.upload st body (f :: fs) env =
      Some (st', Server.UploadOk slug n t) /\
    slug <> custom /\
    JsMap.has (Server.shares st) slug = false /\
    In slug (Server.e_draws env) /\
    JsMap.get (Server.shares st') custom = Some owner /\
    (forall k v, JsMap.get (Server.shares st) k = Some v ->
       JsMap.get (Server.shares st') k = Some v).
Proof.
  intros Hc Hown Hfree.
  assert (Hhas : JsMap.has (Server.shares st) custom = true).
  { apply map_has_get. eauto. }
  pose proof (server_generateSlug_taken _ custom (Server.e_draws env) Hhas)
    as Hgen.
  split; [exact Hgen|].
  destruct (server_randomSlug_total _ _ Hfree) as [slug Hslug].
  destruct (server_randomSlug_fresh _ _ _ Hslug) as [Hfresh Hin].
  assert (Hne : slug <> custom) by congruence.
  unfold Server.upload. rewrite Hc, Hgen, Hslug.
  do 4 eexists. split; [reflexivity|]. simpl.
  repeat split; auto.
  - rewrite map_get_set_other by exact Hne. exact Hown.
  - intros k v Hk. rewrite map_get_set_other; [exact Hk|].
    apply map_has_false in Hfresh. congruence.
Qed.

(** ** Deciding distinctness *)

Lemma trie_ins_new bs : forall t t',
  Distinct.ins bs t = Some t' -> Distinct.mem bs t = false.
Proof.
  induction bs as [|b r IH]; intros t t'; simpl.
  - destruct t as [|[|] z o]; simpl; congruence.
  - destruct t as [|h z o]; [reflexivity|]. simpl.
    destruct b.
    + destruct (Distinct.ins r o) as [o'|] eqn:E; [|discriminate].
      intros _. eapply IH; eauto.
    + destruct (Distinct.ins r z) as [z'|] eqn:E; [|discriminate].
      intros _. eapply IH; eauto.
Qed.

Lemma trie_ins_mem bs : forall t t',
  Distinct.ins bs t = Some t' -> Distinct.mem bs t' = true.
Proof.
  induction bs as [|b r IH]; intros t t'; simpl.
  - destruct t as [|[|] z o]; simpl; [| discriminate |];
      now intros [= <-].
  - destruct t as [|h z o]; destruct b; simpl;
      match goal with
      | |- option_map _ ?x = _ -> _ =>
          destruct x eqn:E; simpl; [|discriminate]
      end; intros [= <-]; simpl; eapply IH; eauto.
Qed.

Lemma trie_mem_leaf bs : Distinct.mem bs Distinct.Leaf = false.
Proof. reflexivity. Qed.

Lemma trie_ins_mono bs : forall t t' cs,
  Distinct.ins bs t = Some t' ->
  Distinct.mem cs t = true -> Distinct.mem cs t' = true.
Proof.
  induction bs as [|b r IH]; intros t t' cs; simpl.
  - destruct t as [|[|] z o]; simpl;
      [intros _ H; discriminate H | discriminate |].
    intros [= <-]. destruct cs as [|c cs']; simpl; auto.
  - destruct t as [|h z o]; [intros _ H; discriminate H|]. destruct b; simpl;
      match goal with
      | |- option_map _ ?x = _ -> _ =>
          destruct x eqn:E; simpl; [|discriminate]
      end; intros [= <-]; destruct cs as [|[|] cs']; simpl; auto;
      eapply IH; eauto.
Qed.

Lemma distinct_from_sound l : forall seen,
  Distinct.distinct_from seen l = true ->
  NoDup l /\ forall x, In x l -> Distinct.mem x seen = false.
Proof.
  induction l as [|x r IH]; intros seen; simpl.
  - intros _. split; [constructor | tauto].
  - destruct (Distinct.ins x seen) as [s|] eqn:E; [|discriminate].
    intros H. destruct (IH s H) as [Hnd Hout]. split.
    + constructor; [|exact Hnd]. intros Hin.
      apply Hout in Hin. rewrite (trie_ins_mem _ _ _ E) in Hin.
      discriminate.
    + intros y [<-|Hy]; [eapply trie_ins_new; eauto|].
      destruct (Distinct.mem y seen) eqn:Ey; [|reflexivity].
      specialize (Hout y Hy).
      rewrite (trie_ins_mono _ _ _ _ E Ey) in Hout. discriminate.
Qed.

Lemma nodup_map_injective {A B : Type} (f : A -> B) (l : list A) :
  NoDup (map f l) ->
  forall x y, In x l -> In y l -> f x = f y -> x = y.
Proof.
  induction l as [|a r IH]; simpl; [tauto|].
  intros Hnd. inversion Hnd as [|? ? Hnotin Hnd']; subst.
  intros x y [<-|Hx] [<-|Hy] Hf; auto.
  - exfalso. apply Hnotin. rewrite Hf. now apply in_map.
  - exfalso. apply Hnotin. rewrite <- Hf. now apply in_map.
Qed.

(** ** The PINs *)

Lemma digit_in_digits c : Js.is_digit c = true -> In c Pins.digits.
Proof.
  destruct c as [[] [] [] [] [] [] [] []]; vm_compute;
    try discriminate; intros _; tauto.
Qed.

Lemma four_digits_in_all p : Js.test_four_digits p = true -> In p Pins.all.
Proof.
  unfold Js.test_four_digits. intros H.
  destruct p as [|a [|b [|c [|d [|e r]]]]]; simpl in H; try discriminate H.
  rewrite !andb_true_r in H.
  apply andb_prop in H. destruct H as [Ha H].
  apply andb_prop in H. destruct H as [Hb H].
  apply andb_prop in H. destruct H as [Hc Hd].
  apply digit_in_digits in Ha, Hb, Hc, Hd.
  unfold Pins.all.
  apply in_flat_map. exists a. split; [exact Ha|].
  apply in_flat_map. exists b. split; [exact Hb|].
  apply in_flat_map. exists c. split; [exact Hc|].
  apply in_map_iff. exists d. split; [reflexivity | exact Hd].
Qed.

(** ** The hash of a PIN in [server.js] *)

(** The digests the FIPS examples and Node give. *)
Example sha256_abc :
  Sha256.sha256_hex (Sha256.bytes_of_string "abc") =
  "ba7816bf8f01cfea414140de5dae2223b00361a396177a9cb410ff61f20015ad"%string.
Proof. vm_compute. reflexivity. Qed.

Example sha256_empty :
  Sha256.sha256_hex [] =
  "e3b0c44298fc1c149afbf4c8996fb92427ae41e4649b934ca495991b7852b855"%string.
Proof. vm_compute. reflexivity. Qed.

Example sha256_two_blocks :
  Sha256.sha256_hex
    (Sha256.bytes_of_string
       "abcdbcdecdefdefgefghfghighijhijkijkljklmklmnlmnomnopnopq") =
  "248d6a61d20638b8e5c026930c3e6039a33ce45964ff2167f6ecedd419db06c1"%string.
Proof. vm_compute. reflexivity. Qed.

Example server_hashPin_1234 :
  Server.hashPin "1234" =
  "03ac674216f3e15c761ee1a5e255f067953623c8b388b4459e13f978d7c846f4"%string.
Proof. vm_compute. reflexivity. Qed.

(** The 10000 digests of the 10000 PINs are pairwise different, already
    in their first eight characters. *)
Lemma server_digests_distinct :
  Distinct.distinct_from Distinct.Leaf
    (map (fun p => Distinct.prefix_bits (Server.hashPin p)) Pins.all)
  = true.
Proof. vm_cast_no_check (@eq_refl bool true). Qed.

Lemma server_hashPin_injective p q :
  Js.test_four_digits p = true -> Js.test_four_digits q = true ->
  Server.hashPin p = Server.hashPin q -> p = q.
Proof.
  intros Hp Hq Hh.
  apply (nodup_map_injective
           (fun p => Distinct.prefix_bits (Server.hashPin p)) Pins.all).
  - apply (distinct_from_sound _ _ server_digests_distinct).
  - now apply four_digits_in_all.
  - now apply four_digits_in_all.
  - simpl. now rewrite Hh.
Qed.

(** A digest is 64 characters long, whatever the message. *)
Lemma rounds_length ks : forall win st,
  List.length st = 8%nat ->
  List.length (Sha256.rounds ks win st) = 8%nat.
Proof.
  induction ks as [|k ks' IH]; intros win st Hst; simpl; [exact Hst|].
  destruct win as [|w0 win']; [exact Hst|].
  destruct st as [|a [|b [|c [|d [|e [|f [|g [|h [|i r]]]]]]]]];
    try exact Hst; try discriminate Hst.
  apply IH. reflexivity.
Qed.

Lemma compress_length st block :
  List.length st = 8%nat ->
  List.length (Sha256.compress st block) = 8%nat.
Proof.
  intros Hst. unfold Sha256.compress.
  rewrite length_map, length_combine, rounds_length by exact Hst.
  rewrite Hst. reflexivity.
Qed.

Lemma blocks_length fuel : forall ws st,
  List.length st = 8%nat ->
  List.length (Sha256.blocks fuel ws st) = 8%nat.
Proof.
  induction fuel as [|f IH]; intros ws st Hst; simpl; [exact Hst|].
  destruct ws as [|w r]; [exact Hst|].
  apply IH. now apply compress_length.
Qed.

Lemma sha256_hex_length msg :
  String.length (Sha256.sha256_hex msg) = 64%nat.
Proof.
  unfold Sha256.sha256_hex, Sha256.sha256_words.
  set (p := Sha256.pad msg).
  set (ws := Sha256.words_of (List.length p) p).
  assert (H : List.length (Sha256.blocks (List.length ws) ws Sha256.H0)
              = 8%nat) by (apply blocks_length; reflexivity).
  destruct (Sha256.blocks (List.length ws) ws Sha256.H0)
    as [|a [|b [|c [|d [|e [|f [|g [|h [|i r]]]]]]]]];
    try discriminate H.
  reflexivity.
Qed.

Lemma sha256_hex_truthy msg : Js.str_truthy (Sha256.sha256_hex msg) = true.
Proof.
  pose proof (sha256_hex_length msg) as H.
  destruct (Sha256.sha256_hex msg); [discriminate H | reflexivity].
Qed.

Lemma four_digits_truthy p :
  Js.test_four_digits p = true -> Js.str_truthy p = true.
Proof.
  destruct p; [discriminate | reflexivity].
Qed.

(** ** [server.js]: the PIN check of the download route *)

(** What the route answers on a share that has a PIN. *)
Lemma server_download_pin st slug share digest qpin :
  JsMap.get (Server.shares st) slug = Some share ->
  Server.pin share = Some digest -> Js.str_truthy digest = true ->
  if Server.verify qpin digest
  then snd (Server.download st slug qpin) <> Server.Download401 /\
       snd (Server.download st slug qpin) <> Server.Download404 /\
       JsMap.get (Server.shares (fst (Server.download st slug qpin))) slug
         = Some (Server.bump share)
  else Server.download st slug qpin = (st, Server.Download401).
Proof.
  intros Hget Hpin Htr. unfold Server.download.
  rewrite Hget, Hpin, Htr. simpl.
  destruct (Server.verify qpin digest); simpl; [|reflexivity].
  destruct (server_send_effect st slug share) as [Hst Hr].
  rewrite Hst. cbn [Server.shares].
  destruct (snd (Server.send st slug share)); try discriminate Hr;
    repeat split; try discriminate; apply map_get_set_same.
Qed.

(** C6. In [server.js], for every string [p] of exactly four digits: the
    check of the download route accepts [p] against the digest of [p],
    and rejects every other string of four digits against it; so a share
    whose stored digest is that of [p] is served to a request carrying
    [p], and a request carrying another four-digit PIN gets the
    PIN-incorrect answer, the store unchanged. *)
Theorem pin_round_trip p :
  Js.test_four_digits p = true ->
  Server.verify (Some p) (Server.hashPin p) = true /\
  (forall p', Js.test_four_digits p' = true -> p' <> p ->
     Server.verify (Some p') (Server.hashPin p) = false) /\
  (forall st slug share,
     JsMap.get (Server.shares st) slug = Some share ->
     Server.pin share = Some (Server.hashPin p) ->
     snd (Server.download st slug (Some p)) <> Server.Download401 /\
     forall p', Js.test_four_digits p' = true -> p' <> p ->
       Server.download st slug (Some p') = (st, Server.Download401)).
Proof.
  intros Hp.
  assert (Hok : Server.verify (Some p) (Server.hashPin p) = true).
  { simpl. rewrite (four_digits_truthy p Hp). apply String.eqb_refl. }
  assert (Hko : forall p', Js.test_four_digits p' = true -> p' <> p ->
                  Server.verify (Some p') (Server.hashPin p) = false).
  { intros p' Hp' Hne. simpl. rewrite (four_digits_truthy p' Hp'). simpl.
    apply String.eqb_neq. intros Heq. apply Hne.
    now apply server_hashPin_injective. }
  split; [exact Hok|]. split; [exact Hko|].
  intros st slug share Hget Hpin.
  assert (Htr : Js.str_truthy (Server.hashPin p) = true)
    by apply sha256_hex_truthy.
  split.
  - pose proof (server_download_pin st slug share _ (Some p) Hget Hpin Htr)
      as H.
    rewrite Hok in H. tauto.
  - intros p' Hp' Hne.
    pose proof (server_download_pin st slug share _ (Some p') Hget Hpin Htr)
      as H.
    now rewrite (Hko p' Hp' Hne) in H.
Qed.

Lemma pin_round_trip_witness :
  Server.verify (Some "1234"%string) (Server.hashPin "1234") = true /\
  Server.verify (Some "0000"%string) (Server.hashPin "1234") = false.
Proof.
  destruct (pin_round_trip "1234" eq_refl) as (H1 & H2 & _).
  split; [exact H1|]. apply H2; [reflexivity | discriminate].
Defined.

(** ** [server.js]: the digest a share stores *)

Lemma server_upload_pin st body fs env st' slug n t p :
  Server.b_pin body = Some p -> Js.str_truthy p = true ->
  Server.upload st body fs env = Some (st', Server.UploadOk slug n t) ->
  exists s, JsMap.get (Server.shares st') slug = Some s /\
            Server.pin s = Some (Server.hashPin p).
Proof.
  intros Hp Htr Hup. apply server_upload_inv in Hup.
  destruct Hup as (_ & _ & share & -> & Hpin & _).
  exists share. simpl. split; [apply map_get_set_same|].
  rewrite Hpin, Hp. simpl. now rewrite Htr.
Qed.

(** C10. In [server.js] the digest stored with a share is the SHA-256 of
    the bytes of the PIN and of nothing else: two uploads, to any stores,
    at any times, under any slugs, store for the PINs [p] and [q] the
    hexadecimal SHA-256 digests of [p] and of [q]; these are equal when
    [p = q], and when [p] and [q] are four-digit PINs with equal stored
    digests then [p = q]. *)
Theorem stored_digest_is_sha256_of_pin
  st1 st2 body1 body2 fs1 fs2 env1 env2 p q st1' st2' slug1 slug2 n1 t1 n2 t2 :
  Server.b_pin body1 = Some p -> Js.str_truthy p = true ->
  Server.b_pin body2 = Some q -> Js.str_truthy q = true ->
  Server.upload st1 body1 fs1 env1 = Some (st1', Server.UploadOk slug1 n1 t1) ->
  Server.upload st2 body2 fs2 env2 = Some (st2', Server.UploadOk slug2 n2 t2) ->
  exists s1 s2,
    JsMap.get (Server.shares st1') slug1 = Some s1 /\
    JsMap.get (Server.shares st2') slug2 = Some s2 /\
    Server.pin s1 = Some (Sha256.sha256_hex (Sha256.bytes_of_string p)) /\
    Server.pin s2 = Some (Sha256.sha256_hex (Sha256.bytes_of_string q)) /\
    (p = q -> Server.pin s1 = Server.pin s2) /\
    (Js.test_four_digits p = true -> Js.test_four_digits q = true ->
     Server.pin s1 = Server.pin s2 -> p = q).
Proof.
  intros Hp Htp Hq Htq Hup1 Hup2.
  destruct (server_upload_pin _ _ _ _ _ _ _ _ _ Hp Htp Hup1) as (s1 & Hg1 & Hs1).
  destruct (server_upload_pin _ _ _ _ _ _ _ _ _ Hq Htq Hup2) as (s2 & Hg2 & Hs2).
  exists s1, s2. repeat split; try assumption.
  - intros ->. now rewrite Hs1, Hs2.
  - intros Hvp Hvq Heq. rewrite Hs1, Hs2 in Heq. injection Heq as Heq.
    now apply server_hashPin_injective.
Qed.

Lemma stored_digest_is_sha256_of_pin_witness :
  let f := Multer.mkFile "a.txt" "uploads/1-a.txt" 10 "text/plain" "1-a.txt" in
  let body := Server.mkBody (Some "1234"%string) None None None in
  let env1 := Server.mkEnv "id-1" 1000 1000 ["abc123"%string] in
  let env2 := Server.mkEnv "id-2" 9000 9001 ["zzz999"%string] in
  exists s1 s2,
    JsMap.get [("abc123"%string,
                Server.mkShare "id-1" [Server.entry_of f] 1000 0
                  (Some (Server.hashPin "1234")) None)] "abc123" = Some s1 /\
    JsMap.get [("zzz999"%string,
                Server.mkShare "id-2" [Server.entry_of f] 9000 0
                  (Some (Server.hashPin "1234")) None)] "zzz999" = Some s2 /\
    Server.pin s1 =
      Some (Sha256.sha256_hex (Sha256.bytes_of_string "1234")) /\
    Server.pin s2 =
      Some (Sha256.sha256_hex (Sha256.bytes_of_string "1234")) /\
    ("1234"%string = "1234"%string -> Server.pin s1 = Server.pin s2) /\
    (Js.test_four_digits "1234" = true -> Js.test_four_digits "1234" = true ->
     Server.pin s1 = Server.pin s2 -> "1234"%string = "1234"%string).
Proof.
  intros f body env1 env2.
  exact (stored_digest_is_sha256_of_pin Server.init Server.init body body
           [f] [f] env1 env2 "1234" "1234" _ _ "abc123" "zzz999" 1 10 1 10
           eq_refl eq_refl eq_refl eq_refl eq_refl eq_refl).
Defined.

(** ** [server.js]: where it departs from the specification *)

(** C1. On [server.js] a record whose [expiresAt] has passed and that the
    sweeper has not removed yet is served: the download route does not
    read the clock. Here the share expired at 2000; at any later time the
    request is answered with the file and counted. *)
Theorem expired_share_is_still_served :
  let f := Server.mkFileEntry "a.txt" "uploads/1-a.txt" 10 "text/plain" in
  let s := Server.mkShare "id-1" [f] 1000 0 None (Some (Js.Num 2000)) in
  let d := Fs.mkDisk ["uploads/1-a.txt"%string] [] in
  let st := Server.mkState [("abc123"%string, s)] d in
  Server.expired 5000 s = true /\
  Server.download st "abc123" None =
    (Server.mkState [("abc123"%string, Server.bump s)] d,
     Server.DownloadFile f).
Proof. split; reflexivity. Qed.

(** The route serves a share without a PIN whatever its [expiresAt]:
    the request is counted and, the files being on the disk, answered
    with the file or the archive. *)
Lemma server_download_ignores_expiry st slug share qpin :
  JsMap.get (Server.shares st) slug = Some share ->
  Server.pin share = None ->
  exists r,
    Server.download st slug qpin =
      (Server.mkState (JsMap.set (Server.shares st) slug (Server.bump share))
                      (Server.disk st), r) /\
    ServerRoutes.counted r = true /\
    (forallb (fun f => Fs.existsSync (Server.disk st) (Server.path f))
       (Server.files share) = true ->
     r = Server.DownloadZip (Server.files share) \/
     exists f, r = Server.DownloadFile f).
Proof.
  intros Hget Hpin. unfold Server.download. rewrite Hget, Hpin.
  destruct (server_send_effect st slug share) as [Hst Hr].
  exists (snd (Server.send st slug share)). split; [|split; [exact Hr|]].
  - rewrite <- Hst. now destruct (Server.send st slug share).
  - unfold Server.send.
    destruct (Server.files share) as [|f [|g r]]; intros Hdisk.
    + now left.
    + simpl in Hdisk. rewrite andb_true_r in Hdisk. cbn [snd].
      rewrite Hdisk. eauto.
    + cbn [snd]. rewrite Hdisk. now left.
Qed.

(** [server.js] has no download limit: a share uploaded with
    [maxDownloads = 1] is served twice. The upload does not read the
    field, the record has no limit, and the download route counts without
    comparing. After the second download the record is still in the
    store, with [downloads = 2]. The limit is the backend's
    ([download_cap] below). *)
Theorem download_limit_is_not_enforced :
  let mf := Multer.mkFile "a.txt" "uploads/1-a.txt" 10 "text/plain"
              "1-a.txt" in
  let f := Server.entry_of mf in
  let body := Server.mkBody None None None (Some "1"%string) in
  let env := Server.mkEnv "id-1" 1000 1000 ["abc123"%string] in
  let s0 := Server.mkShare "id-1" [f] 1000 0 None None in
  let d := Fs.mkDisk ["uploads/1-a.txt"%string] [] in
  let st0 := Server.mkState [] d in
  let st1 := Server.mkState [("abc123"%string, s0)] d in
  let st2 := Server.mkState [("abc123"%string, Server.bump s0)] d in
  let st3 :=
    Server.mkState [("abc123"%string, Server.bump (Server.bump s0))] d in
  Server.upload st0 body [mf] env = Some (st1, Server.UploadOk "abc123" 1 10) /\
  Server.download st1 "abc123" None = (st2, Server.DownloadFile f) /\
  Server.download st2 "abc123" None = (st3, Server.DownloadFile f) /\
  option_map Server.downloads (JsMap.get (Server.shares st3) "abc123")
    = Some 2%Z.
Proof. repeat split; reflexivity. Qed.

(** C3. On [server.js] an upload with [ttl = 99999] (beyond 10080) and
    [maxDownloads = 5000] (beyond 1000) is accepted: no validation error,
    and the store gains a record, which expires 99999 minutes later. *)
Theorem out_of_range_upload_is_accepted :
  let mf := Multer.mkFile "a.txt" "uploads/1-a.txt" 10 "text/plain"
              "1-a.txt" in
  let body := Server.mkBody None None (Some "99999"%string)
                (Some "5000"%string) in
  let env := Server.mkEnv "id-1" 1000 1000 ["abc123"%string] in
  let s := Server.mkShare "id-1" [Server.entry_of mf] 1000 0 None
             (Some (Js.Num (1000 + 99999 * 60 * 1000))) in
  Server.upload Server.init body [mf] env =
    Some (Server.mkState [("abc123"%string, s)] (Server.disk Server.init),
          Server.UploadOk "abc123" 1 10) /\
  Server.shares Server.init = [].
Proof. split; reflexivity. Qed.

(** C4. On [server.js] a free custom slug is returned as it is, whatever
    its characters: ["my slug/../x"] does not match [[A-Za-z0-9_-]+] and
    is the slug of the share. *)
Theorem custom_slug_is_not_validated :
  Js.test_slug_pattern "my slug/../x" = false /\
  Server.generateSlug [] (Some "my slug/../x"%string) ["abc123"%string] =
    Some "my slug/../x"%string.
Proof. split; reflexivity. Qed.

(** On [server.js] every free, non-empty custom slug is used verbatim. *)
Lemma server_generateSlug_verbatim m c draws :
  Js.str_truthy c = true -> JsMap.has m c = false ->
  Server.generateSlug m (Some c) draws = Some c.
Proof.
  intros Htr Hfree. unfold Server.generateSlug.
  now rewrite Htr, Hfree.
Qed.

(** ** The theorems at work on concrete stores *)

Lemma sweep_removes_expired_only_witness :
  let f := Server.mkFileEntry "a.txt" "uploads/1-a.txt" 10 "text/plain" in
  let g := Server.mkFileEntry "b.txt" "uploads/2-b.txt" 20 "text/plain" in
  let old := Server.mkShare "id-1" [f] 1000 0 None (Some (Js.Num 61000)) in
  let keep := Server.mkShare "id-2" [g] 2000 3 None None in
  let d := Fs.mkDisk ["uploads/1-a.txt"; "uploads/2-b.txt"]%string [] in
  let st := Server.mkState [("old"%string, old); ("keep"%string, keep)] d in
  JsMap.get (Server.shares (fst (Server.sweep 120000 st))) "old" = None /\
  In "uploads/1-a.txt"%string (map fst (snd (Server.sweep 120000 st))) /\
  JsMap.get (Server.shares (fst (Server.sweep 120000 st))) "keep" = Some keep.
Proof.
  intros f g old keep d st.
  assert (Hwf : JsMap.wf (Server.shares st)).
  { repeat constructor; simpl; intuition discriminate. }
  destruct (sweep_removes_expired_only 120000 st
              (fst (Server.sweep 120000 st)) (snd (Server.sweep 120000 st))
              Hwf eq_refl) as (Hgone & _ & Hkept).
  destruct (Hgone "old"%string old 61000%Z eq_refl eq_refl) as [H1 H2];
    [discriminate | reflexivity |].
  split; [exact H1|]. split.
  - apply (H2 f). now left.
  - apply (Hkept "keep"%string keep); reflexivity.
Defined.

(** The sweeper reads [expiresAt] through [share.expiresAt &&]: a record
    whose [expiresAt] is the number 0 has an expiry that is set and has
    passed, and stays. [server.js] stores such a record for the [ttl]
    that brings [Date.now()] back to 0. *)
Lemma sweep_keeps_zero_expiry :
  let mf := Multer.mkFile "a.txt" "uploads/1-a.txt" 10 "text/plain"
              "1-a.txt" in
  let body := Server.mkBody None None (Some "-28333334"%string) None in
  let env := Server.mkEnv "id-1" 1700000040000 1700000040000
               ["abc123"%string] in
  let d := Fs.mkDisk ["uploads/1-a.txt"%string] [] in
  let s := Server.mkShare "id-1" [Server.entry_of mf] 1700000040000 0 None
             (Some (Js.Num 0)) in
  let st := Server.mkState [("abc123"%string, s)] d in
  Server.upload (Server.mkState [] d) body [mf] env =
    Some (st, Server.UploadOk "abc123" 1 10) /\
  Server.expiresAt s = Some (Js.Num 0) /\
  (0 < 1700000100000)%Z /\
  Server.sweep 1700000100000 st = (st, []) /\
  JsMap.get (Server.shares (fst (Server.sweep 1700000100000 st))) "abc123"
    = Some s.
Proof. repeat split; reflexivity. Qed.

Lemma slugs_stay_unique_witness :
  let mf := Multer.mkFile "a.txt" "uploads/1-a.txt" 10 "text/plain"
              "1-a.txt" in
  let body := Server.mkBody None (Some "my-link"%string) (Some "1"%string)
                None in
  let env1 := Server.mkEnv "id-1" 1000 1000 ["abc123"%string] in
  let env2 := Server.mkEnv "id-2" 2000 2000 ["abc123"; "def456"]%string in
  let ops := [Server.OpUpload body [mf] env1;
              Server.OpUpload body [mf] env2;
              Server.OpDownload "my-link" None;
              Server.OpSweep 70000;
              Server.OpDelete "abc123"] in
  match Server.run Server.init ops with
  | Some st => JsMap.wf (Server.shares st)
  | None => False
  end.
Proof.
  intros mf body env1 env2 ops.
  destruct (Server.run Server.init ops) as [st|] eqn:E.
  - exact (proj1 (slugs_stay_unique ops st E)).
  - discriminate E.
Defined.

Lemma custom_slug_collision_falls_back_witness :
  let mf := Multer.mkFile "b.txt" "uploads/2-b.txt" 20 "text/plain"
              "2-b.txt" in
  let f := Server.mkFileEntry "a.txt" "uploads/1-a.txt" 10 "text/plain" in
  let owner := Server.mkShare "id-1" [f] 1000 0 None None in
  let st := Server.mkState [("my-link"%string, owner)] (Fs.mkDisk [] []) in
  let body := Server.mkBody None (Some "my-link"%string) None None in
  let env := Server.mkEnv "id-2" 2000 2000 ["my-link"; "k3x9qa"]%string in
  exists st' slug n t,
    Server.upload st body [mf] env = Some (st', Server.UploadOk slug n t) /\
    slug <> "my-link"%string /\
    JsMap.has (Server.shares st) slug = false /\
    In slug (Server.e_draws env) /\
    JsMap.get (Server.shares st') "my-link" = Some owner /\
    (forall k v, JsMap.get (Server.shares st) k = Some v ->
       JsMap.get (Server.shares st') k = Some v).
Proof.
  intros mf f owner st body env.
  refine (proj2 (custom_slug_collision_falls_back st body mf [] env
                   "my-link" owner eq_refl eq_refl _)).
  exists "k3x9qa"%string. split; [right; left; reflexivity | reflexivity].
Defined.

(** ** The backend: the sibling routes do what the specification says *)

Lemma backend_randomSlug_fresh m draws slug :
  Backend.randomSlug m draws = Some slug ->
  JsMap.has m slug = false /\ In slug draws.
Proof.
  induction draws as [|s r IH]; simpl; [discriminate|].
  destruct (JsMap.has m s) eqn:E.
  - intros H. destruct (IH H). auto.
  - intros [= <-]. auto.
Qed.

(** X12. [generateSlug] of [models/Share.js] returns the custom slug only
    when it is free and matches the pattern [/^[a-zA-Z0-9_-]+$/]; what
    it returns otherwise comes from the random loop; and the slug
    returned is free in both cases. *)
Lemma backend_generateSlug_validates m custom draws slug :
  Backend.generateSlug m custom draws = Some slug ->
  JsMap.has m slug = false /\
  ((custom = Some slug /\ Js.test_slug_pattern slug = true) \/
   Backend.randomSlug m draws = Some slug).
Proof.
  unfold Backend.generateSlug. destruct custom as [c|].
  - destruct (Js.str_truthy c && negb (JsMap.has m c) &&
              Js.test_slug_pattern c) eqn:E.
    + intros [= <-]. apply andb_prop in E. destruct E as [E Hpat].
      apply andb_prop in E. destruct E as [_ Hfree].
      apply negb_true_iff in Hfree. auto.
    + intros H. split; [|now right].
      now apply backend_randomSlug_fresh in H.
  - intros H. split; [|now right]. now apply backend_randomSlug_fresh in H.
Qed.

Lemma backend_generateSlug_verbatim m c draws :
  Js.test_slug_pattern c = true -> JsMap.has m c = false ->
  Backend.generateSlug m (Some c) draws = Some c.
Proof.
  intros Hpat Hfree. unfold Backend.generateSlug.
  rewrite Hpat, Hfree.
  unfold Js.test_slug_pattern in Hpat. apply andb_prop in Hpat.
  destruct Hpat as [-> _]. reflexivity.
Qed.

Lemma backend_generateSlug_rejects m c draws :
  Js.test_slug_pattern c = false ->
  Backend.generateSlug m (Some c) draws = Backend.randomSlug m draws.
Proof.
  intros Hpat. unfold Backend.generateSlug. rewrite Hpat.
  now rewrite andb_false_r.
Qed.

Example backend_generateSlug_bad_pattern :
  Backend.generateSlug [] (Some "my slug/../x"%string) ["abc123"%string] =
    Some "abc123"%string.
Proof. reflexivity. Qed.

Section BackendFacts.
Variable toNumber : string -> Js.JsNum.

Lemma backend_delete_get st slug :
  Backend.getShare (fst (fst (Backend.deleteShare st slug))) slug = None.
Proof.
  unfold Backend.deleteShare, Backend.getShare.
  destruct (JsMap.get (Backend.shares st) slug) as [share|] eqn:E.
  - destruct (Fs.unlink_each _ _). simpl. apply map_get_delete_same.
  - exact E.
Qed.

Lemma backend_delete_get_other st slug k :
  k <> slug ->
  Backend.getShare (fst (fst (Backend.deleteShare st slug))) k =
  Backend.getShare st k.
Proof.
  intros Hk. unfold Backend.deleteShare, Backend.getShare.
  destruct (JsMap.get (Backend.shares st) slug) as [share|] eqn:E.
  - destruct (Fs.unlink_each _ _). simpl. apply map_get_delete_other.
    congruence.
  - reflexivity.
Qed.

(** X10. [GET /:slug/download] of [routes/share.js] answers
    [SHARE_EXPIRED] on a record whose [expiresAt] has passed, whether the
    sweeper has run or not and whatever PIN the request carries, and
    removes the record. *)
Lemma backend_download_refuses_expired st slug share qpin hpin now e :
  Backend.getShare st slug = Some share ->
  Backend.expiresAt share = Some (Js.Num e) -> e <> 0%Z -> (e < now)%Z ->
  snd (Backend.download toNumber st slug qpin hpin now) =
    Backend.ShareExpired /\
  Backend.getShare (fst (Backend.download toNumber st slug qpin hpin now))
    slug = None.
Proof.
  intros Hget He Hz Hlt. unfold Backend.download. rewrite Hget.
  assert (Hex : Backend.expired now share = true).
  { unfold Backend.expired. rewrite He. simpl.
    destruct (Z.eqb_spec e 0); [contradiction|]. simpl. now apply Z.ltb_lt. }
  rewrite Hex. simpl. split; [reflexivity | apply backend_delete_get].
Qed.

(** A share at its limit is refused and removed. *)
Lemma backend_download_respects_limit st slug share qpin hpin now :
  Backend.getShare st slug = Some share ->
  Backend.expired now share = false ->
  Backend.limit_reached toNumber share = true ->
  snd (Backend.download toNumber st slug qpin hpin now) =
    Backend.LimitReached /\
  Backend.getShare (fst (Backend.download toNumber st slug qpin hpin now))
    slug = None.
Proof.
  intros Hget Hex Hlim. unfold Backend.download.
  rewrite Hget, Hex, Hlim. simpl.
  split; [reflexivity | apply backend_delete_get].
Qed.

Lemma backend_increment_get st slug share :
  Backend.getShare st slug = Some share ->
  Backend.getShare (Backend.incrementDownloads toNumber st slug) slug =
    Some (Backend.bump share).
Proof.
  unfold Backend.getShare, Backend.incrementDownloads. intros ->. simpl.
  apply map_get_set_same.
Qed.

(** The deletion is scheduled by the download that reaches the limit. *)
Lemma backend_increment_schedules st slug share :
  Backend.getShare st slug = Some share ->
  Backend.timers (Backend.incrementDownloads toNumber st slug) =
  if Backend.limit_reached toNumber (Backend.bump share)
  then (Backend.timers st ++ [slug])%list else Backend.timers st.
Proof.
  unfold Backend.getShare, Backend.incrementDownloads. now intros ->.
Qed.

(** A request that is served found the share below its limit and counted
    itself. *)
Lemma backend_served_counts st slug qpin hpin now :
  Backend.served (snd (Backend.download toNumber st slug qpin hpin now))
    = true ->
  exists share,
    Backend.getShare st slug = Some share /\
    Backend.expired now share = false /\
    Backend.limit_reached toNumber share = false /\
    Backend.getShare (fst (Backend.download toNumber st slug qpin hpin now))
      slug = Some (Backend.bump share).
Proof.
  unfold Backend.download.
  destruct (Backend.getShare st slug) as [share|] eqn:Hget;
    [|discriminate].
  destruct (Backend.expired now share) eqn:Hex; [discriminate|].
  destruct (Backend.limit_reached toNumber share) eqn:Hlim; [discriminate|].
  destruct (negb (Backend.validateSharePin st slug _)); [discriminate|].
  simpl. intros _. exists share.
  split; [reflexivity|]. split; [exact Hex|]. split; [exact Hlim|].
  now apply backend_increment_get.
Qed.

End BackendFacts.

(** ** The backend: the download limit *)

Section BackendCap.
Variable toNumber : string -> Js.JsNum.
Variables (slug m : string) (n : Z).
Hypothesis m_truthy : Js.str_truthy m = true.
Hypothesis m_number : toNumber m = Js.Num n.

Lemma backend_remaining_nonneg st : (0 <= Backend.remaining st slug n)%Z.
Proof.
  unfold Backend.remaining. destruct (Backend.getShare st slug); lia.
Qed.

Lemma backend_remaining_absent st :
  Backend.getShare st slug = None -> Backend.remaining st slug n = 0%Z.
Proof. unfold Backend.remaining. now intros ->. Qed.

Lemma backend_limit_not_reached s :
  Backend.maxDownloads s = Some m ->
  Backend.limit_reached toNumber s = false ->
  (Backend.downloads s < n)%Z.
Proof.
  unfold Backend.limit_reached. intros ->.
  rewrite m_truthy, m_number. simpl. intros H. apply Z.leb_gt in H. lia.
Qed.

(** One request: the share keeps its limit, and a request that is served
    uses up one of the downloads left. *)
Lemma backend_download_step st qpin hpin now :
  Backend.limited slug m st ->
  Backend.limited slug m
    (fst (Backend.download toNumber st slug qpin hpin now)) /\
  ((if Backend.served (snd (Backend.download toNumber st slug qpin hpin now))
    then 1 else 0) +
   Backend.remaining (fst (Backend.download toNumber st slug qpin hpin now))
     slug n <= Backend.remaining st slug n)%Z.
Proof.
  intros Hlim. unfold Backend.download.
  destruct (Backend.getShare st slug) as [share|] eqn:Hget.
  2:{ simpl. split; [exact Hlim|]. lia. }
  assert (Hgone : forall st', Backend.getShare st' slug = None ->
            Backend.limited slug m st' /\
            (0 + Backend.remaining st' slug n
             <= Backend.remaining st slug n)%Z).
  { intros st' H. split.
    - intros s Hs. congruence.
    - rewrite (backend_remaining_absent st' H).
      pose proof (backend_remaining_nonneg st). lia. }
  destruct (Backend.expired now share).
  { simpl. apply Hgone, backend_delete_get. }
  destruct (Backend.limit_reached toNumber share) eqn:Hreached.
  { simpl. apply Hgone, backend_delete_get. }
  destruct (negb (Backend.validateSharePin st slug _)).
  { simpl. split; [exact Hlim|]. lia. }
  simpl.
  pose proof (backend_increment_get toNumber st slug share Hget) as Hinc.
  split.
  - intros s Hs. rewrite Hinc in Hs. injection Hs as <-. simpl.
    now apply Hlim.
  - pose proof (backend_limit_not_reached share (Hlim share Hget) Hreached).
    unfold Backend.remaining at 1. rewrite Hinc. simpl.
    unfold Backend.remaining. rewrite Hget.
    destruct (Backend.served _); lia.
Qed.

Lemma backend_timer_step st :
  Backend.limited slug m st ->
  Backend.limited slug m (Backend.fire_timer st) /\
  (Backend.remaining (Backend.fire_timer st) slug n
   <= Backend.remaining st slug n)%Z.
Proof.
  intros Hlim. unfold Backend.fire_timer.
  destruct (Backend.timers st) as [|k rest]; [split; [exact Hlim | apply Z.le_refl]|].
  set (st0 := Backend.mkState (Backend.shares st) (Backend.disk st) rest).
  assert (H0 : forall k', Backend.getShare st0 k' = Backend.getShare st k')
    by reflexivity.
  destruct (String.eqb_spec k slug) as [->|Hne].
  - pose proof (backend_delete_get st0 slug) as Hd. split.
    + intros s Hs. congruence.
    + rewrite (backend_remaining_absent _ Hd).
      apply backend_remaining_nonneg.
  - pose proof (backend_delete_get_other st0 k slug) as Hd.
    assert (Hs : slug <> k) by congruence. specialize (Hd Hs).
    rewrite H0 in Hd. split.
    + intros s Hs'. rewrite Hd in Hs'. now apply Hlim.
    + unfold Backend.remaining. rewrite Hd. lia.
Qed.

Lemma served_count_cons r rs :
  Backend.served_count (r :: rs) =
  ((if Backend.served r then 1 else 0) + Backend.served_count rs)%Z.
Proof.
  unfold Backend.served_count. cbn [filter].
  destruct (Backend.served r); [|lia].
  cbn [List.length]. rewrite Nat2Z.inj_succ. lia.
Qed.

(** However requests and timers interleave, the requests served are no
    more than the downloads the share had left. *)
Lemma backend_replay_cap evs : forall st,
  Backend.limited slug m st ->
  (Backend.served_count (snd (Backend.replay toNumber st slug evs))
   <= Backend.remaining st slug n)%Z.
Proof.
  induction evs as [|[qpin hpin now|] rest IH]; intros st Hlim; simpl.
  - apply backend_remaining_nonneg.
  - destruct (backend_download_step st qpin hpin now Hlim) as [Hl Hr].
    destruct (Backend.download toNumber st slug qpin hpin now) as [st1 r].
    simpl in Hl, Hr. specialize (IH st1 Hl).
    destruct (Backend.replay toNumber st1 slug rest) as [st2 rs].
    simpl in *. rewrite served_count_cons. lia.
  - destruct (backend_timer_step st Hlim) as [Hl Hr].
    specialize (IH _ Hl). lia.
Qed.

(** X11. On the backend, a share with the limit [m], read as the number
    [n]: however the requests for it and the pending timers follow each
    other, at most [n - downloads] of the requests to come are served; at
    most [n] for a share just created. *)
Lemma backend_cap st s evs :
  Backend.getShare st slug = Some s ->
  Backend.maxDownloads s = Some m ->
  (Backend.served_count (snd (Backend.replay toNumber st slug evs))
   <= Z.max 0 (n - Backend.downloads s))%Z.
Proof.
  intros Hget Hmax.
  assert (Hlim : Backend.limited slug m st).
  { intros s' Hs'. congruence. }
  pose proof (backend_replay_cap evs st Hlim) as H.
  unfold Backend.remaining in H. now rewrite Hget in H.
Qed.

End BackendCap.

(** ** The backend: the validation of an upload *)

Section BackendUpload.
Variable toNumber : string -> Js.JsNum.

(** A value that [parseInt] reads as a number outside the range fails the
    range test. *)
Lemma backend_out_of_range s k hi :
  Js.str_truthy s = true -> Js.parseInt s = Js.Num k ->
  (k < 1 \/ hi < k)%Z ->
  Backend.out_of_range toNumber (Some s) hi = true.
Proof.
  intros Htr Hk Hout. unfold Backend.out_of_range, Js.num_gt.
  rewrite Htr, Hk. simpl.
  destruct (Backend.isNaN toNumber s); [reflexivity|]. simpl.
  apply orb_true_iff. destruct Hout; [left|right]; now apply Z.ltb_lt.
Qed.

(** [POST /] of [routes/upload.js] answers a validation error to a [ttl]
    or a [maxDownloads] that fails the range test, before [createShare]:
    the state is the one it was. *)
Lemma backend_upload_rejects_out_of_range st body f fs ua ipaddr env :
  Backend.bad_pin_format (Backend.b_pin body) = false ->
  Backend.out_of_range toNumber (Backend.b_ttl body) 10080 = true \/
  Backend.out_of_range toNumber (Backend.b_maxDownloads body) 1000 = true ->
  exists r,
    Backend.upload toNumber st body (f :: fs) ua ipaddr env = Some (st, r) /\
    (r = Backend.InvalidTtl \/ r = Backend.InvalidMaxDownloads).
Proof.
  intros Hpin Hout. unfold Backend.upload. rewrite Hpin.
  destruct (Backend.out_of_range toNumber (Backend.b_ttl body) 10080).
  - eauto.
  - destruct Hout as [Hout|Hout]; [discriminate|]. rewrite Hout. eauto.
Qed.

End BackendUpload.

(** With [ttl = 99999] the backend answers [INVALID_TTL], whatever
    [Number] makes of the string. *)
Example backend_upload_ttl_99999 toNumber :
  let mf := Multer.mkFile "a.txt" "uploads/1-a.txt" 10 "text/plain"
              "1-a.txt" in
  let body := Backend.mkBody None None (Some "99999"%string) None in
  let env := Backend.mkEnv "id-1" 1000 1000 ["abc123"%string] in
  Backend.upload toNumber Backend.init body [mf] None None env =
    Some (Backend.init, Backend.InvalidTtl).
Proof.
  intros mf body env.
  assert (H : Backend.out_of_range toNumber (Backend.b_ttl body) 10080
              = true).
  { apply backend_out_of_range with (k := 99999%Z);
      [reflexivity | reflexivity | lia]. }
  unfold Backend.upload. rewrite H. reflexivity.
Qed.

(** A share with [maxDownloads = 2]: two requests are served, the second
    schedules the deletion, the third is refused; when the timer goes off
    before the third request, that request finds nothing. *)
Example backend_limit_two :
  let f := Backend.mkFileEntry "a.txt" "uploads/1-a.txt" 10 "text/plain"
             "1-a.txt" in
  let s := Backend.mkShare "id-1" [f] 1000 0 (Some "2"%string) None None
             (Backend.mkMetadata None None) in
  let d := Fs.mkDisk ["uploads/1-a.txt"%string] [] in
  let st := Backend.mkState [("abc123"%string, s)] d [] in
  let dl := Backend.EvDownload None None 2000 in
  snd (Backend.replay Js.parseInt st "abc123" [dl; dl; dl]) =
    [Backend.SentFile f; Backend.SentFile f; Backend.LimitReached] /\
  Backend.timers (fst (Backend.replay Js.parseInt st "abc123" [dl; dl])) =
    ["abc123"%string] /\
  snd (Backend.replay Js.parseInt st "abc123"
         [dl; dl; Backend.EvTimer; dl]) =
    [Backend.SentFile f; Backend.SentFile f; Backend.ShareNotFound].
Proof. repeat split; reflexivity. Qed.

Example backend_hashPin_1234 :
  Backend.hashPin "1234" =
  "847fcf2826d22ae99177bd5051873eb1cf863d84a6d1b7dc9f48d36330b8284f"%string.
Proof. vm_compute. reflexivity. Qed.

(** [POST /single] repeats the PIN test only: the same [ttl] is accepted
    there. *)
Example backend_single_accepts_ttl_99999 :
  let mf := Multer.mkFile "a.txt" "uploads/1-a.txt" 10 "text/plain"
              "1-a.txt" in
  let body := Backend.mkBody None None (Some "99999"%string) None in
  let env := Backend.mkEnv "id-1" 1000 1000 ["abc123"%string] in
  let share :=
    Backend.mkShare "id-1" [Backend.entry_of mf] 1000 0 None None
      (Some (Js.Num (1000 + 99999 * 60 * 1000)))
      (Backend.mkMetadata None None) in
  Backend.uploadSingle Backend.init body (Some mf) None None env =
    Some (Backend.mkState [("abc123"%string, share)] (Fs.mkDisk [] []) [],
          Backend.Created "abc123" share).
Proof. reflexivity. Qed.

(** ** The backend: the PIN *)

(** The backend hashes the PIN followed by its fixed salt. *)
Example backend_hashPin_salted :
  Backend.hashPin "1234" =
    Sha256.sha256_hex (Sha256.bytes_of_string "1234sharelink_salt") /\
  Backend.hashPin "1234" <> Server.hashPin "1234".
Proof. split; [reflexivity | vm_compute; discriminate]. Qed.

Lemma backend_digests_distinct :
  Distinct.distinct_from Distinct.Leaf
    (map (fun p => Distinct.prefix_bits (Backend.hashPin p)) Pins.all)
  = true.
Proof. vm_cast_no_check (@eq_refl bool true). Qed.

Lemma backend_hashPin_injective p q :
  Backend.validatePin p = true -> Backend.validatePin q = true ->
  Backend.hashPin p = Backend.hashPin q -> p = q.
Proof.
  intros Hp Hq Hh.
  apply (nodup_map_injective
           (fun p => Distinct.prefix_bits (Backend.hashPin p)) Pins.all).
  - apply (distinct_from_sound _ _ backend_digests_distinct).
  - now apply four_digits_in_all.
  - now apply four_digits_in_all.
  - simpl. now rewrite Hh.
Qed.

(** [validateSharePin] on a share created with the PIN [p] accepts [p]
    and no other four-digit PIN. *)
Lemma backend_pin_round_trip st slug share p q :
  Backend.validatePin p = true -> Backend.validatePin q = true ->
  Backend.getShare st slug = Some share ->
  Backend.pin share = Some (Backend.hashPin p) ->
  Backend.validateSharePin st slug (Some q) = String.eqb q p.
Proof.
  intros Hp Hq Hget Hpin. unfold Backend.validateSharePin.
  unfold Backend.getShare in Hget. rewrite Hget, Hpin.
  unfold Backend.hashPin at 1. rewrite sha256_hex_truthy.
  rewrite (four_digits_truthy q Hq). simpl.
  destruct (String.eqb_spec q p) as [->|Hne].
  - apply String.eqb_refl.
  - apply String.eqb_neq. intros Heq. apply Hne.
    now apply backend_hashPin_injective.
Qed.

(* ================================================================== *)
(** * Part III: the other routes, the clients and the newsletter *)
(* ================================================================== *)

(** ** [server.js]: what a download changes *)

(** A request that is not counted changes nothing; a request that is
    counted replaces the record of its slug by the same record with one
    more download, and touches nothing else. *)
Lemma server_download_effect st slug qpin :
  if ServerRoutes.counted (snd (Server.download st slug qpin))
  then exists share,
         JsMap.get (Server.shares st) slug = Some share /\
         fst (Server.download st slug qpin) =
           Server.mkState
             (JsMap.set (Server.shares st) slug (Server.bump share))
             (Server.disk st)
  else fst (Server.download st slug qpin) = st.
Proof.
  unfold Server.download.
  destruct (JsMap.get (Server.shares st) slug) as [share|] eqn:Hget;
    [|reflexivity].
  destruct (server_send_effect st slug share) as [Hs2 Hs1].
  destruct (Server.pin share) as [digest|].
  - destruct (Js.str_truthy digest && negb (Server.verify qpin digest));
      [reflexivity|]. rewrite Hs1. eauto.
  - rewrite Hs1. eauto.
Qed.

Lemma counted_for_cons slug k r rs :
  ServerRoutes.counted_for slug ((k, r) :: rs) =
  ((if String.eqb slug k && ServerRoutes.counted r then 1 else 0) +
   ServerRoutes.counted_for slug rs)%Z.
Proof.
  unfold ServerRoutes.counted_for. cbn [filter fst snd].
  destruct (String.eqb slug k && ServerRoutes.counted r); [|lia].
  cbn [List.length]. rewrite Nat2Z.inj_succ. lia.
Qed.

Lemma served_for_cons slug k r rs :
  ServerRoutes.served_for slug ((k, r) :: rs) =
  ((if String.eqb slug k && ServerRoutes.served r then 1 else 0) +
   ServerRoutes.served_for slug rs)%Z.
Proof.
  unfold ServerRoutes.served_for. cbn [filter fst snd].
  destruct (String.eqb slug k && ServerRoutes.served r); [|lia].
  cbn [List.length]. rewrite Nat2Z.inj_succ. lia.
Qed.

(** A response that is the file or the archive was counted. *)
Lemma served_for_le_counted_for slug rs :
  (ServerRoutes.served_for slug rs <= ServerRoutes.counted_for slug rs)%Z.
Proof.
  induction rs as [|[k r] rest IH].
  - unfold ServerRoutes.served_for, ServerRoutes.counted_for. simpl. lia.
  - rewrite served_for_cons, counted_for_cons.
    destruct (String.eqb slug k); cbn [andb]; [|lia].
    destruct r; cbn [ServerRoutes.served ServerRoutes.counted]; lia.
Qed.

(** X1. On [server.js], over any run of download requests (to any slugs,
    with any PINs, whatever is on the disk), a share that is in the
    store stays in the store and changes in its counter only: [downloads]
    grows by exactly the number of requests for its slug that got past
    the lookup and the PIN check, those answered with the file or the
    archive and those whose file turned out to be missing alike (the
    counter moves before the file is sent); requests answered 401 or
    ['Share not found'] are not counted; so the requests served are
    never more than the counter grew. *)
Theorem download_counter_counts_served reqs : forall st slug share,
  JsMap.get (Server.shares st) slug = Some share ->
  exists share',
    JsMap.get
      (Server.shares (fst (ServerRoutes.downloads_run st reqs))) slug
      = Some share' /\
    Server.downloads share' =
      (Server.downloads share +
       ServerRoutes.counted_for slug
         (snd (ServerRoutes.downloads_run st reqs)))%Z /\
    (ServerRoutes.served_for slug (snd (ServerRoutes.downloads_run st reqs))
     <= Server.downloads share' - Server.downloads share)%Z /\
    Server.id share' = Server.id share /\
    Server.files share' = Server.files share /\
    Server.createdAt share' = Server.createdAt share /\
    Server.pin share' = Server.pin share /\
    Server.expiresAt share' = Server.expiresAt share.
Proof.
  assert (H : forall st slug share,
    JsMap.get (Server.shares st) slug = Some share ->
    exists share',
      JsMap.get
        (Server.shares (fst (ServerRoutes.downloads_run st reqs))) slug
        = Some share' /\
      Server.downloads share' =
        (Server.downloads share +
         ServerRoutes.counted_for slug
           (snd (ServerRoutes.downloads_run st reqs)))%Z /\
      Server.id share' = Server.id share /\
      Server.files share' = Server.files share /\
      Server.createdAt share' = Server.createdAt share /\
      Server.pin share' = Server.pin share /\
      Server.expiresAt share' = Server.expiresAt share).
  { induction reqs as [|[k qpin] rest IH]; intros st slug share Hget.
    - exists share. simpl. unfold ServerRoutes.counted_for. simpl.
      rewrite Z.add_0_r. auto 10.
    - simpl.
      pose proof (server_download_effect st k qpin) as Heff.
      destruct (Server.download st k qpin) as [st1 r]. simpl in Heff.
      assert (Hnext : exists s1,
                JsMap.get (Server.shares st1) slug = Some s1 /\
                Server.downloads s1 =
                  (Server.downloads share +
                   (if String.eqb slug k && ServerRoutes.counted r
                    then 1 else 0))%Z /\
                Server.id s1 = Server.id share /\
                Server.files s1 = Server.files share /\
                Server.createdAt s1 = Server.createdAt share /\
                Server.pin s1 = Server.pin share /\
                Server.expiresAt s1 = Server.expiresAt share).
      { destruct (ServerRoutes.counted r).
        - destruct Heff as (sk & Hk & ->). simpl.
          destruct (String.eqb_spec slug k) as [->|Hne]; simpl.
          + rewrite map_get_set_same. rewrite Hget in Hk.
            injection Hk as <-.
            exists (Server.bump share). simpl. auto 10.
          + rewrite map_get_set_other by congruence.
            exists share. rewrite Z.add_0_r. auto 10.
        - subst st1. rewrite andb_false_r, Z.add_0_r. exists share.
          auto 10. }
      destruct Hnext as (s1 & Hg1 & Hd1 & Hi & Hf & Hc & Hp & He).
      destruct (IH st1 slug s1 Hg1)
        as (s2 & Hg2 & Hd2 & Hi2 & Hf2 & Hc2 & Hp2 & He2).
      destruct (ServerRoutes.downloads_run st1 rest) as [st2 rs].
      simpl in *. exists s2. rewrite counted_for_cons.
      repeat split; try congruence. lia. }
  intros st slug share Hget.
  destruct (H st slug share Hget) as (s' & Hg & Hd & Hrest).
  exists s'. split; [exact Hg|]. split; [exact Hd|]. split; [|exact Hrest].
  pose proof (served_for_le_counted_for slug
                (snd (ServerRoutes.downloads_run st reqs))). lia.
Qed.

Lemma download_counter_counts_served_witness :
  let f := Server.mkFileEntry "a.txt" "uploads/1-a.txt" 10 "text/plain" in
  let s := Server.mkShare "id-1" [f] 1000 0 None None in
  let st := Server.mkState [("abc123"%string, s)] (Fs.mkDisk [] []) in
  let reqs := [("abc123"%string, None); ("nobody"%string, None);
               ("abc123"%string, Some "1234"%string)] in
  snd (ServerRoutes.downloads_run st reqs) =
    [("abc123"%string, Server.DownloadMissing);
     ("nobody"%string, Server.Download404);
     ("abc123"%string, Server.DownloadMissing)] /\
  exists share',
    JsMap.get (Server.shares (fst (ServerRoutes.downloads_run st reqs)))
      "abc123" = Some share' /\
    Server.downloads share' = 2%Z.
Proof.
  intros f s st reqs. split; [reflexivity|].
  destruct (download_counter_counts_served reqs st "abc123" s eq_refl)
    as (share' & Hget & Hcount & _).
  exists share'. split; [exact Hget | exact Hcount].
Defined.

(** ** [server.js]: an upload, then the routes *)



(** X3. On [server.js], a share uploaded with a non-empty PIN is never
    served to a request that carries no PIN or an empty one: the answer
    is 401 and the store is as it was (no download is counted). *)
Theorem pin_protected_share_needs_a_pin st body fs env st' slug n t p :
  Server.b_pin body = Some p -> Js.str_truthy p = true ->
  Server.upload st body fs env = Some (st', Server.UploadOk slug n t) ->
  Server.download st' slug None = (st', Server.Download401) /\
  Server.download st' slug (Some ""%string) = (st', Server.Download401).
Proof.
  intros Hp Htr Hup.
  destruct (server_upload_pin _ _ _ _ _ _ _ _ _ Hp Htr Hup) as (s & Hget & Hs).
  unfold Server.download. rewrite Hget, Hs.
  unfold Server.hashPin. rewrite sha256_hex_truthy. simpl. auto.
Qed.

Lemma pin_protected_share_needs_a_pin_witness :
  let mf := Multer.mkFile "a.txt" "uploads/1-a.txt" 10 "text/plain"
              "1-a.txt" in
  let body := Server.mkBody (Some "1234"%string) None None None in
  let env := Server.mkEnv "id-1" 1000 1000 ["abc123"%string] in
  let share := Server.mkShare "id-1" [Server.entry_of mf] 1000 0
                 (Some (Server.hashPin "1234")) None in
  let st' := Server.mkState [("abc123"%string, share)] (Fs.mkDisk [] []) in
  Server.download st' "abc123" None = (st', Server.Download401).
Proof.
  intros mf body env share st'.
  exact (proj1 (pin_protected_share_needs_a_pin Server.init body [mf] env
                  st' "abc123" 1 10 "1234" eq_refl eq_refl eq_refl)).
Defined.

(** ** [server.js]: after a deletion *)

(** X4. On [server.js], after a share was deleted its slug is as if it had
    never been used: the download and info routes answer 404, a second
    deletion answers 404 and changes nothing, and the generator gives the
    slug, as a custom slug, to the next upload that asks for it. *)
Theorem deleted_slug_is_free st slug st' log :
  Server.deleteShare st slug = (st', Server.Delete200, log) ->
  (forall qpin, Server.download st' slug qpin = (st', Server.Download404)) /\
  ServerRoutes.info st' slug = None /\
  (forall port, ServerRoutes.qr st' port slug = None) /\
  Server.deleteShare st' slug = (st', Server.Delete404, []) /\
  (forall draws, Js.str_truthy slug = true ->
     Server.generateSlug (Server.shares st') (Some slug) draws = Some slug).
Proof.
  intros Hdel.
  assert (Hget : JsMap.get (Server.shares st') slug = None).
  { pose proof (server_delete_shares st slug) as H. rewrite Hdel in H.
    simpl in H. rewrite H. apply map_get_delete_same. }
  assert (Hdl : forall qpin,
            Server.download st' slug qpin = (st', Server.Download404)).
  { intros qpin. unfold Server.download. now rewrite Hget. }
  split; [exact Hdl|]. split; [|split; [|split]].
  - unfold ServerRoutes.info. now rewrite Hget.
  - intros port. unfold ServerRoutes.qr. now rewrite Hget.
  - unfold Server.deleteShare. now rewrite Hget.
  - intros draws Htr. apply server_generateSlug_verbatim; [exact Htr|].
    now apply map_has_false.
Qed.

Lemma deleted_slug_is_free_witness :
  let f := Server.mkFileEntry "a.txt" "uploads/1-a.txt" 10 "text/plain" in
  let s := Server.mkShare "id-1" [f] 1000 0 None None in
  let st := Server.mkState [("my-link"%string, s)]
              (Fs.mkDisk ["uploads/1-a.txt"%string] []) in
  let st' := Server.mkState [] (Fs.mkDisk [] []) in
  ServerRoutes.info st' "my-link" = None /\
  Server.generateSlug (Server.shares st') (Some "my-link"%string)
    ["abc123"%string] = Some "my-link"%string.
Proof.
  intros f s st st'.
  destruct (deleted_slug_is_free st "my-link" st'
              [("uploads/1-a.txt"%string, true)] eq_refl)
    as (_ & Hinfo & _ & _ & Hgen).
  split; [exact Hinfo | exact (Hgen ["abc123"%string] eq_refl)].
Defined.

(** ** [server.js]: the listing *)

Lemma server_list_app (m1 m2 : JsMap.t Server.Share) d1 d2 d3 :
  ServerRoutes.listShares (Server.mkState (m1 ++ m2)%list d1) =
  (ServerRoutes.listShares (Server.mkState m1 d2) ++
   ServerRoutes.listShares (Server.mkState m2 d3))%list.
Proof. unfold ServerRoutes.listShares, JsMap.entries. simpl. apply map_app. Qed.

(** X5. On [server.js], the listing is in upload order: an upload adds one
    element at the end of the listing, that of its share, and leaves the
    elements before it as they were; every element of the listing is
    what the info route reports for its slug. *)
Theorem listing_follows_uploads st body fs env st' slug n t :
  JsMap.wf (Server.shares st) ->
  Server.upload st body fs env = Some (st', Server.UploadOk slug n t) ->
  (exists i,
     ServerRoutes.info st' slug = Some i /\
     ServerRoutes.listShares st' =
       (ServerRoutes.listShares st ++ [(slug, i)])%list) /\
  (forall k i, In (k, i) (ServerRoutes.listShares st') ->
     ServerRoutes.info st' k = Some i).
Proof.
  intros Hwf Hup.
  assert (Hwf' : JsMap.wf (Server.shares st')).
  { apply server_upload_inv in Hup. destruct Hup as (_ & _ & sh & -> & _).
    simpl. now apply map_set_nodup. }
  split.
  - apply server_upload_inv in Hup.
    destruct Hup as (_ & Hgen & share & -> & _).
    apply server_generateSlug_fresh in Hgen.
    exists (ServerRoutes.summary share). split.
    + unfold ServerRoutes.info. simpl. now rewrite map_get_set_same.
    + unfold ServerRoutes.listShares, JsMap.entries. simpl.
      rewrite (map_set_fresh _ _ _ Hgen), map_app. reflexivity.
  - intros k i Hin. unfold ServerRoutes.listShares, JsMap.entries in Hin.
    apply in_map_iff in Hin. destruct Hin as ([k' s] & [= <- <-] & Hin).
    unfold ServerRoutes.info. simpl.
    now rewrite (map_in_get _ _ _ Hwf' Hin).
Qed.

Lemma listing_follows_uploads_witness :
  let f := Server.mkFileEntry "a.txt" "uploads/1-a.txt" 10 "text/plain" in
  let mg := Multer.mkFile "b.txt" "uploads/2-b.txt" 20 "text/plain"
              "2-b.txt" in
  let s := Server.mkShare "id-1" [f] 1000 4 None None in
  let st := Server.mkState [("first"%string, s)] (Fs.mkDisk [] []) in
  let body := Server.mkBody None None None None in
  let env := Server.mkEnv "id-2" 2000 2000 ["abc123"%string] in
  let share := Server.mkShare "id-2" [Server.entry_of mg] 2000 0 None None in
  let st' := Server.mkState [("first"%string, s); ("abc123"%string, share)]
               (Fs.mkDisk [] []) in
  exists i,
    ServerRoutes.info st' "abc123" = Some i /\
    ServerRoutes.listShares st' =
      (ServerRoutes.listShares st ++ [("abc123"%string, i)])%list.
Proof.
  intros f mg s st body env share st'.
  assert (Hwf : JsMap.wf (Server.shares st)).
  { repeat constructor; simpl; intuition discriminate. }
  exact (proj1 (listing_follows_uploads st body [mg] env st' "abc123" 1 20
                  Hwf eq_refl)).
Defined.

(** ** [server.js]: a cycle of the sweeper, as a whole *)

Lemma filter_twice {A : Type} (f g : A -> bool) (l : list A) :
  filter f (filter g l) = filter (fun x => g x && f x) l.
Proof.
  induction l as [|a r IH]; simpl; [reflexivity|].
  destruct (g a); simpl; [destruct (f a)|]; now rewrite IH.
Qed.

Lemma unlink_each_app d p1 p2 :
  fst (Fs.unlink_each d (p1 ++ p2)) =
  fst (Fs.unlink_each (fst (Fs.unlink_each d p1)) p2).
Proof.
  revert d. induction p1 as [|p r IH]; intros d; simpl; [reflexivity|].
  destruct (Fs.unlinkSync d p) as [d1 ok]. specialize (IH d1).
  destruct (Fs.unlink_each d1 (r ++ p2)) as [d2 l2].
  destruct (Fs.unlink_each d1 r) as [d3 l3]. simpl in *. exact IH.
Qed.

(** The paths a cycle tries to remove. *)
Lemma server_sweep_fold_state now es : forall st log,
  Server.shares (fst (fold_left (Server.sweep_entry now) es (st, log))) =
    filter (fun e => negb (Server.doomed now es (fst e))) (Server.shares st)
  /\
  Server.disk (fst (fold_left (Server.sweep_entry now) es (st, log))) =
    fst (Fs.unlink_each (Server.disk st)
           (flat_map (fun e => map Server.path (Server.files (snd e)))
              (filter (fun e => Server.expired now (snd e)) es))).
Proof.
  induction es as [|[k s] r IH]; intros st log; simpl.
  - split; [|reflexivity]. induction (Server.shares st) as [|a l IHl];
      simpl; [reflexivity | now rewrite <- IHl].
  - destruct (Server.expired now s) eqn:Ex; simpl.
    + rewrite unlink_each_app.
      destruct (Fs.unlink_each (Server.disk st) _) as [d log'] eqn:Hu.
      destruct (IH (Server.mkState (JsMap.delete (Server.shares st) k) d)
                   (log ++ log')%list) as [H1 H2].
      rewrite H1, H2. simpl. split; [|reflexivity].
      unfold JsMap.delete. rewrite filter_twice.
      apply filter_ext. intros [k' s']. unfold Server.doomed.
      cbn [existsb fst snd]. fold (Server.doomed now r k').
      rewrite (String.eqb_sym k' k).
      destruct (String.eqb k k'), (Server.doomed now r k'); reflexivity.
    + destruct (IH st log) as [H1 H2]. rewrite H1, H2.
      split; [|reflexivity]. apply filter_ext. intros [k' s'].
      unfold Server.doomed. cbn [existsb fst snd].
      now rewrite andb_false_r.
Qed.

Lemma server_sweep_shares now st :
  JsMap.wf (Server.shares st) ->
  Server.shares (fst (Server.sweep now st)) =
  filter (fun e => negb (Server.expired now (snd e))) (Server.shares st).
Proof.
  intros Hwf. unfold Server.sweep.
  rewrite (proj1 (server_sweep_fold_state now _ st [])).
  apply filter_ext_in. intros [k s] Hin. simpl. unfold JsMap.entries.
  now rewrite (doomed_get now _ k s Hwf (map_in_get _ _ _ Hwf Hin)).
Qed.

Lemma server_sweep_nothing now es : forall st log,
  forallb (fun e => negb (Server.expired now (snd e))) es = true ->
  fold_left (Server.sweep_entry now) es (st, log) = (st, log).
Proof.
  induction es as [|[k s] r IH]; intros st log; simpl; [reflexivity|].
  intros H. apply andb_prop in H. destruct H as [Hk Hr].
  apply negb_true_iff in Hk. rewrite Hk. now apply IH.
Qed.

(** X6. On [server.js], one cycle of the sweeper at [now] leaves the
    listing as it was, in the same order, without the shares expired at
    [now]; a file is on the disk afterwards exactly when it was there
    before and is not a backing file of a removed share, or cannot be
    removed. *)
Theorem sweep_listing_and_disk now st :
  JsMap.wf (Server.shares st) ->
  ServerRoutes.listShares (fst (Server.sweep now st)) =
    map (fun e => (fst e, ServerRoutes.summary (snd e)))
      (filter (fun e => negb (Server.expired now (snd e)))
              (JsMap.entries (Server.shares st))) /\
  forall q,
    Fs.existsSync (Server.disk (fst (Server.sweep now st))) q =
    Fs.existsSync (Server.disk st) q &&
    (negb (Fs.mem q
             (flat_map (fun e => map Server.path (Server.files (snd e)))
                (filter (fun e => Server.expired now (snd e))
                        (JsMap.entries (Server.shares st))))) ||
     Fs.mem q (Fs.locked (Server.disk st))).
Proof.
  intros Hwf. split.
  - unfold ServerRoutes.listShares, JsMap.entries.
    now rewrite server_sweep_shares.
  - intros q. unfold Server.sweep.
    rewrite (proj2 (server_sweep_fold_state now _ st [])).
    apply unlink_each_exists.
Qed.

Lemma sweep_listing_and_disk_witness :
  let f := Server.mkFileEntry "a.txt" "uploads/1-a.txt" 10 "text/plain" in
  let g := Server.mkFileEntry "b.txt" "uploads/2-b.txt" 20 "text/plain" in
  let old := Server.mkShare "id-1" [f] 1000 0 None (Some (Js.Num 61000)) in
  let keep := Server.mkShare "id-2" [g] 2000 3 None None in
  let d := Fs.mkDisk ["uploads/1-a.txt"; "uploads/2-b.txt"]%string [] in
  let st := Server.mkState [("old"%string, old); ("keep"%string, keep)] d in
  ServerRoutes.listShares (fst (Server.sweep 120000 st)) =
    [("keep"%string, ServerRoutes.summary keep)] /\
  Fs.existsSync (Server.disk (fst (Server.sweep 120000 st)))
    "uploads/1-a.txt" = false /\
  Fs.existsSync (Server.disk (fst (Server.sweep 120000 st)))
    "uploads/2-b.txt" = true.
Proof.
  intros f g old keep d st.
  assert (Hwf : JsMap.wf (Server.shares st)).
  { repeat constructor; simpl; intuition discriminate. }
  destruct (sweep_listing_and_disk 120000 st Hwf) as [Hlist Hdisk].
  split; [exact Hlist|].
  split; [exact (Hdisk "uploads/1-a.txt"%string)
         | exact (Hdisk "uploads/2-b.txt"%string)].
Defined.

(** X7. On [server.js], a cycle of the sweeper that follows another one
    at the same time finds nothing to do: it removes no share, attempts
    no file, and leaves the state as it is. *)
Theorem sweep_twice_is_sweep_once now st :
  JsMap.wf (Server.shares st) ->
  Server.sweep now (fst (Server.sweep now st)) =
    (fst (Server.sweep now st), []).
Proof.
  intros Hwf. unfold Server.sweep at 1. apply server_sweep_nothing.
  unfold JsMap.entries. rewrite server_sweep_shares by exact Hwf.
  apply forallb_forall. intros e He. apply filter_In in He. tauto.
Qed.

Lemma sweep_twice_is_sweep_once_witness :
  let f := Server.mkFileEntry "a.txt" "uploads/1-a.txt" 10 "text/plain" in
  let g := Server.mkFileEntry "b.txt" "uploads/2-b.txt" 20 "text/plain" in
  let old := Server.mkShare "id-1" [f] 1000 0 None (Some (Js.Num 61000)) in
  let keep := Server.mkShare "id-2" [g] 2000 3 None None in
  let d := Fs.mkDisk ["uploads/1-a.txt"; "uploads/2-b.txt"]%string [] in
  let st := Server.mkState [("old"%string, old); ("keep"%string, keep)] d in
  Server.sweep 120000 (fst (Server.sweep 120000 st)) =
    (Server.mkState [("keep"%string, keep)]
       (Fs.mkDisk ["uploads/2-b.txt"%string] []), []).
Proof.
  intros f g old keep d st.
  assert (Hwf : JsMap.wf (Server.shares st)).
  { repeat constructor; simpl; intuition discriminate. }
  exact (sweep_twice_is_sweep_once 120000 st Hwf).
Defined.

(** ** The client scripts: links and slugs *)

Lemma string_app_assoc (a b c : string) :
  ((a ++ b) ++ c = a ++ (b ++ c))%string.
Proof. induction a as [|x r IH]; simpl; [reflexivity | now rewrite IH]. Qed.

Lemma split_not_nil c s : JsString.split c s <> [].
Proof.
  induction s as [|a r IH]; simpl; [discriminate|].
  destruct (JsString.split c r) as [|seg rest]; [contradiction|].
  destruct (Ascii.eqb a c); discriminate.
Qed.

Lemma split_free c s :
  JsString.free_of c s = true -> JsString.split c s = [s].
Proof.
  induction s as [|a r IH]; simpl; [reflexivity|].
  intros H. apply andb_prop in H. destruct H as [Ha Hr].
  rewrite (IH Hr). apply negb_true_iff in Ha. now rewrite Ha.
Qed.

(** Cutting a string that has the separator in the middle. *)
Lemma split_app c a b :
  JsString.split c (a ++ String c b) =
  (JsString.split c a ++ JsString.split c b)%list.
Proof.
  induction a as [|x r IH]; simpl.
  - rewrite Ascii.eqb_refl.
    destruct (JsString.split c b) as [|seg rest] eqn:E; [|reflexivity].
    now apply split_not_nil in E.
  - rewrite IH.
    destruct (JsString.split c r) as [|seg rest] eqn:E;
      [now apply split_not_nil in E|].
    simpl. now destruct (Ascii.eqb x c).
Qed.

Lemma pop_app l1 l2 :
  l2 <> [] -> JsString.pop (l1 ++ l2) = JsString.pop l2.
Proof.
  intros H. induction l1 as [|x r IH]; simpl; [reflexivity|].
  rewrite <- IH. destruct (r ++ l2)%list eqn:E; [|reflexivity].
  apply app_eq_nil in E. tauto.
Qed.

(** The last piece of a string is the whole string only when the
    separator does not occur in it. *)
Lemma pop_split_length c s : forall x,
  JsString.pop (JsString.split c s) = Some x ->
  (String.length x <= String.length s)%nat /\
  (String.length x = String.length s -> JsString.free_of c s = true).
Proof.
  induction s as [|a r IH]; intros x; simpl.
  - intros [= <-]. auto.
  - destruct (JsString.split c r) as [|seg rest] eqn:E;
      [now apply split_not_nil in E|].
    destruct (Ascii.eqb a c) eqn:Ha; simpl.
    + intros H. destruct (IH x H) as [Hle _]. split; lia.
    + destruct rest as [|seg' rest'].
      * intros [= <-]. destruct (IH seg eq_refl) as [Hle Heq].
        simpl. split; [lia|]. intros Hl. apply Heq. lia.
      * intros H. destruct (IH x H) as [Hle _]. split; lia.
Qed.

(** X8. The page of [server.js] finds the slug of a link the server gave
    ([shareLink.split('/').pop()] of
    [`http://localhost:${PORT}/share/${slug}`]) exactly when the slug has
    no ['/'] in it; for a slug with a ['/'] the receiver asks for another
    slug, the part after the last ['/']. *)
Theorem server_link_round_trip port slug :
  Client.slug_of_link (ServerRoutes.shareUrl port slug) =
    JsString.pop (JsString.split "/" slug) /\
  (Client.slug_of_link (ServerRoutes.shareUrl port slug) = Some slug <->
   JsString.free_of "/" slug = true).
Proof.
  assert (H : Client.slug_of_link (ServerRoutes.shareUrl port slug) =
              JsString.pop (JsString.split "/" slug)).
  { unfold Client.slug_of_link, ServerRoutes.shareUrl.
    change ("/share/" ++ slug)%string
      with ("/share" ++ String "/" slug)%string.
    rewrite <- !string_app_assoc.
    rewrite split_app. apply pop_app. apply split_not_nil. }
  split; [exact H|]. rewrite H. split.
  - intros Hp. now apply (pop_split_length "/" slug slug Hp).
  - intros Hf. now rewrite split_free.
Qed.

Lemma not_download_colon protocol :
  String.eqb (protocol ++ ":") "download" = false.
Proof.
  apply String.eqb_neq.
  destruct protocol as [|a [|b [|c [|d [|e [|f [|g [|h r]]]]]]]];
    simpl; try discriminate.
  destruct r; discriminate.
Qed.

(** X9. The frontend's [checkShare], given a link as the backend made it
    ([`${protocol}://${host}/api/share/${slug}/download`], with no white
    space around it for [trim()] to remove), finds the slug, the piece
    before the first ['download'], whenever the slug is not the word
    [download] itself and has no ['/'], the host being a plain host name
    other than [download]. *)
Theorem backend_link_round_trip protocol host slug :
  JsString.free_of "/" protocol = true ->
  JsString.free_of "/" host = true ->
  JsString.free_of "/" slug = true ->
  host <> "download"%string -> slug <> "download"%string ->
  Client.slug_of_backend_link (Client.backendUrl protocol host slug)
    = Some slug.
Proof.
  intros Hp Hh Hs Hhost Hslug.
  unfold Client.slug_of_backend_link, Client.backendUrl.
  assert (Hsplit :
    JsString.split "/"
      (protocol ++ "://" ++ host ++ "/api/share/" ++ slug ++ "/download") =
    [protocol ++ ":"; ""; host; "api"; "share"; slug; "download"]%string).
  { change ("://" ++ host ++ "/api/share/" ++ slug ++ "/download")%string
      with (":" ++ String "/" (String "/"
              (host ++ "/api/share/" ++ slug ++ "/download")))%string.
    rewrite <- string_app_assoc, split_app.
    rewrite split_free.
    2:{ clear -Hp. induction protocol as [|a r IH]; simpl; [reflexivity|].
        simpl in Hp. apply andb_prop in Hp. destruct Hp as [-> Hr].
        now rewrite IH. }
    change (String "/" (host ++ "/api/share/" ++ slug ++ "/download"))
      with ("" ++ String "/" (host ++ "/api/share/" ++ slug ++ "/download"))
      %string.
    rewrite split_app.
    change ("/api/share/" ++ slug ++ "/download")%string
      with (String "/" ("api" ++ String "/" ("share" ++ String "/"
              (slug ++ String "/" "download"))))%string.
    rewrite !split_app. rewrite (split_free _ host Hh), (split_free _ slug Hs).
    reflexivity. }
  rewrite Hsplit. cbn [JsString.indexOf].
  rewrite not_download_colon.
  apply String.eqb_neq in Hhost, Hslug. rewrite Hhost, Hslug.
  reflexivity.
Qed.

(** A share whose custom slug is the word [download] is out of reach of
    the frontend: it asks for the slug [share]. *)
Example backend_link_download_slug :
  Client.slug_of_backend_link
    (Client.backendUrl "http" "localhost:5001" "download")
  = Some "share"%string.
Proof. reflexivity. Qed.

Lemma backend_link_round_trip_witness :
  Client.slug_of_backend_link
    (Client.backendUrl "http" "localhost:5001" "my-link")
  = Some "my-link"%string.
Proof.
  apply backend_link_round_trip; try reflexivity; discriminate.
Defined.

(** ** The backend: instances *)

Lemma backend_generateSlug_validates_witness :
  JsMap.has ([] : JsMap.t Backend.Share) "abc123" = false /\
  ((Some "my slug/../x"%string = Some "abc123"%string /\
    Js.test_slug_pattern "abc123" = true) \/
   Backend.randomSlug [] ["abc123"%string] = Some "abc123"%string).
Proof.
  exact (backend_generateSlug_validates [] (Some "my slug/../x"%string)
           ["abc123"%string] "abc123" eq_refl).
Defined.

Lemma backend_download_refuses_expired_witness :
  let f := Backend.mkFileEntry "a.txt" "uploads/1-a.txt" 10 "text/plain"
             "1-a.txt" in
  let s := Backend.mkShare "id-1" [f] 1000 0 None None (Some (Js.Num 2000))
             (Backend.mkMetadata None None) in
  let st := Backend.mkState [("abc123"%string, s)]
              (Fs.mkDisk ["uploads/1-a.txt"%string] []) [] in
  snd (Backend.download Js.parseInt st "abc123" None None 5000) =
    Backend.ShareExpired /\
  Backend.getShare
    (fst (Backend.download Js.parseInt st "abc123" None None 5000)) "abc123"
    = None.
Proof.
  intros f s st.
  apply (backend_download_refuses_expired Js.parseInt st "abc123" s None
           None 5000 2000); [reflexivity | reflexivity | discriminate | lia].
Defined.

Lemma backend_cap_witness :
  let f := Backend.mkFileEntry "a.txt" "uploads/1-a.txt" 10 "text/plain"
             "1-a.txt" in
  let s := Backend.mkShare "id-1" [f] 1000 0 (Some "2"%string) None None
             (Backend.mkMetadata None None) in
  let st := Backend.mkState [("abc123"%string, s)]
              (Fs.mkDisk ["uploads/1-a.txt"%string] []) [] in
  let dl := Backend.EvDownload None None 2000 in
  (Backend.served_count
     (snd (Backend.replay Js.parseInt st "abc123"
             [dl; dl; dl; Backend.EvTimer; dl])) <= 2)%Z.
Proof.
  intros f s st dl.
  exact (backend_cap Js.parseInt "abc123" "2" 2 eq_refl eq_refl st s
           [dl; dl; dl; Backend.EvTimer; dl] eq_refl eq_refl).
Defined.

(** ** The backend: what an accepted upload stores *)

Lemma backend_generateSlug_fresh m custom draws slug :
  Backend.generateSlug m custom draws = Some slug ->
  JsMap.has m slug = false.
Proof.
  unfold Backend.generateSlug. destruct custom as [c|].
  - destruct (Js.str_truthy c && negb (JsMap.has m c) &&
              Js.test_slug_pattern c) eqn:E.
    + intros [= <-]. apply andb_prop in E. destruct E as [E _].
      apply andb_prop in E. destruct E as [_ Hfree].
      now apply negb_true_iff in Hfree.
    + intros H. now apply backend_randomSlug_fresh in H.
  - intros H. now apply backend_randomSlug_fresh in H.
Qed.

Section BackendAccepted.
Variable toNumber : string -> Js.JsNum.

Lemma backend_in_range_or_nan s hi :
  Js.str_truthy s = true ->
  Backend.out_of_range toNumber (Some s) hi = false ->
  Js.parseInt s = Js.NaN \/
  exists k, Js.parseInt s = Js.Num k /\ (1 <= k <= hi)%Z.
Proof.
  intros Htr. unfold Backend.out_of_range, Js.num_gt. rewrite Htr. simpl.
  intros H. apply orb_false_elim in H. destruct H as [H Hgt].
  apply orb_false_elim in H. destruct H as [_ Hlt].
  destruct (Js.parseInt s) as [k|]; [right | now left].
  exists k. split; [reflexivity|]. simpl in Hlt, Hgt.
  apply Z.ltb_ge in Hlt, Hgt. lia.
Qed.

(** X13. On the backend, an upload that [POST /] of [routes/upload.js]
    accepts stores a share, found under the slug returned, with no
    download yet; a PIN it was given has four digits and is stored as its
    salted digest; and a [ttl] it was given either makes the share expire
    between 1 and 10080 minutes after the upload, or is one that
    [parseInt] cannot read, and then the share's [expiresAt] is [NaN]: it
    never expires. *)
Theorem backend_accepted_upload st body fs ua ipaddr env st' slug share :
  Backend.upload toNumber st body fs ua ipaddr env =
    Some (st', Backend.Created slug share) ->
  Backend.getShare st' slug = Some share /\
  Backend.getShare st slug = None /\
  Backend.downloads share = 0%Z /\
  (forall p, Backend.b_pin body = Some p -> Js.str_truthy p = true ->
     Backend.validatePin p = true /\
     Backend.pin share = Some (Backend.hashPin p)) /\
  (forall t, Backend.b_ttl body = Some t -> Js.str_truthy t = true ->
     Backend.expiresAt share = Some Js.NaN \/
     exists k, (1 <= k <= 10080)%Z /\
       Backend.expiresAt share =
         Some (Js.Num (Backend.e_now_expiry env + k * 60 * 1000))).
Proof.
  unfold Backend.upload. destruct fs as [|f fs']; [discriminate|].
  destruct (Backend.bad_pin_format (Backend.b_pin body)) eqn:Hpin;
    [discriminate|].
  destruct (Backend.out_of_range toNumber (Backend.b_ttl body) 10080)
    eqn:Httl; [discriminate|].
  destruct (Backend.out_of_range toNumber (Backend.b_maxDownloads body) 1000);
    [discriminate|].
  unfold Backend.createShare. cbn [Backend.d_customSlug Backend.shareData_of].
  destruct (Backend.generateSlug _ _ _) as [k|] eqn:Hgen; [|discriminate].
  intros [= <- <- <-]. cbn.
  apply backend_generateSlug_fresh in Hgen. rename Hgen into Hfree.
  unfold Backend.getShare. cbn.
  split; [apply map_get_set_same|].
  split; [now apply map_has_false|].
  split; [reflexivity|]. split.
  - intros p Hp Htr. rewrite Hp in *.
    unfold Backend.bad_pin_format in Hpin. rewrite Htr in Hpin.
    apply negb_false_iff in Hpin. split; [exact Hpin|].
    unfold Backend.pin_of. now rewrite Htr.
  - intros t Ht Htr. rewrite Ht in *. cbn. rewrite Htr.
    destruct (backend_in_range_or_nan t 10080 Htr Httl) as [Hn|(j & Hj & Hr)].
    + left. now rewrite Hn.
    + right. exists j. split; [exact Hr|]. now rewrite Hj.
Qed.

End BackendAccepted.

Lemma backend_accepted_upload_witness :
  let mf := Multer.mkFile "a.txt" "uploads/1-a.txt" 10 "text/plain"
              "1-a.txt" in
  let body := Backend.mkBody (Some "1234"%string) (Some "my-link"%string)
                (Some "60"%string) (Some "5"%string) in
  let env := Backend.mkEnv "id-1" 1000 1000 ["abc123"%string] in
  let share :=
    Backend.mkShare "id-1" [Backend.entry_of mf] 1000 0 (Some "5"%string)
      (Some (Backend.hashPin "1234")) (Some (Js.Num (1000 + 60 * 60 * 1000)))
      (Backend.mkMetadata None None) in
  let st' := Backend.mkState [("my-link"%string, share)] (Fs.mkDisk [] [])
               [] in
  Backend.getShare st' "my-link" = Some share /\
  Backend.getShare Backend.init "my-link" = None /\
  Backend.downloads share = 0%Z.
Proof.
  intros mf body env share st'.
  destruct (backend_accepted_upload Js.parseInt Backend.init body [mf] None
              None env st' "my-link" share eq_refl) as (H1 & H2 & H3 & _).
  split; [exact H1|]. split; [exact H2 | exact H3].
Defined.

(** ** The backend: the info and delete routes *)

(** X16. On the backend, [GET /:slug/info] re-checks the expiry as the
    code tests it ([share.expiresAt && Date.now() > share.expiresAt]):
    for a record whose [expiresAt] is a non-zero number in the past it
    answers [SHARE_EXPIRED] and removes the record, so that a download
    request that follows, at any time and with any PIN, is answered
    [SHARE_NOT_FOUND]; a share whose [expiresAt] is absent, is 0, or has
    not passed, is reported with the counters it has, and the state is as
    it was. *)
Theorem backend_info_rechecks_expiry
  (toNumber : string -> Js.JsNum) st slug share now :
  Backend.getShare st slug = Some share ->
  (forall e,
     Backend.expiresAt share = Some (Js.Num e) -> e <> 0%Z -> (e < now)%Z ->
     snd (BackendRoutes.info st slug now) = BackendRoutes.InfoExpired /\
     forall qpin hpin later,
       Backend.download toNumber (fst (BackendRoutes.info st slug now)) slug
         qpin hpin later =
       (fst (BackendRoutes.info st slug now), Backend.ShareNotFound)) /\
  (Backend.expiresAt share = None \/
   (exists e, Backend.expiresAt share = Some (Js.Num e) /\
              (e = 0 \/ now <= e)%Z) ->
   BackendRoutes.info st slug now =
     (st, BackendRoutes.InfoOk (BackendRoutes.summary slug share))).
Proof.
  intros Hget. unfold BackendRoutes.info. rewrite Hget. split.
  - intros e He Hz Hlt.
    assert (Hex : Backend.expired now share = true).
    { unfold Backend.expired. rewrite He. simpl.
      destruct (Z.eqb_spec e 0); [contradiction|]. simpl.
      now apply Z.ltb_lt. }
    rewrite Hex. cbn [fst snd]. split; [reflexivity|].
    intros qpin hpin later. unfold Backend.download.
    now rewrite backend_delete_get.
  - intros Hlive.
    assert (Hex : Backend.expired now share = false).
    { unfold Backend.expired.
      destruct Hlive as [->|(e & -> & [->|Hle])]; [reflexivity| |].
      - reflexivity.
      - simpl. apply andb_false_iff. right. apply Z.ltb_ge. exact Hle. }
    now rewrite Hex.
Qed.

Lemma backend_info_rechecks_expiry_witness :
  let f := Backend.mkFileEntry "a.txt" "uploads/1-a.txt" 10 "text/plain"
             "1-a.txt" in
  let s := Backend.mkShare "id-1" [f] 1000 0 None None (Some (Js.Num 2000))
             (Backend.mkMetadata None None) in
  let st := Backend.mkState [("abc123"%string, s)]
              (Fs.mkDisk ["uploads/1-a.txt"%string] []) [] in
  snd (BackendRoutes.info st "abc123" 5000) = BackendRoutes.InfoExpired /\
  BackendRoutes.info st "abc123" 1500 =
    (st, BackendRoutes.InfoOk (BackendRoutes.summary "abc123" s)).
Proof.
  intros f s st.
  destruct (backend_info_rechecks_expiry Js.parseInt st "abc123" s 5000
              eq_refl) as [Hpast _].
  destruct (backend_info_rechecks_expiry Js.parseInt st "abc123" s 1500
              eq_refl) as [_ Hlive].
  split.
  - apply (Hpast 2000%Z); [reflexivity | discriminate | lia].
  - apply Hlive. right. exists 2000%Z. split; [reflexivity | lia].
Defined.

(** X15. On the backend, [DELETE /:slug] on a share created with the
    four-digit PIN [p]: a request whose body has no PIN, or another
    four-digit PIN, is answered [PIN_REQUIRED] and changes nothing; a
    request with [p] removes the share. *)
Theorem backend_delete_needs_the_pin st slug share p :
  Backend.validatePin p = true ->
  Backend.getShare st slug = Some share ->
  Backend.pin share = Some (Backend.hashPin p) ->
  BackendRoutes.deleteRoute st slug None =
    (st, BackendRoutes.DeletePinRequired, []) /\
  (forall q, Backend.validatePin q = true -> q <> p ->
     BackendRoutes.deleteRoute st slug (Some q) =
       (st, BackendRoutes.DeletePinRequired, [])) /\
  snd (fst (BackendRoutes.deleteRoute st slug (Some p))) =
    BackendRoutes.DeleteOk /\
  Backend.getShare (fst (fst (BackendRoutes.deleteRoute st slug (Some p))))
    slug = None.
Proof.
  intros Hp Hget Hpin.
  assert (Htr : Js.opt_truthy (Backend.pin share) = true).
  { rewrite Hpin. apply sha256_hex_truthy. }
  assert (Hnone : Backend.validateSharePin st slug None = false).
  { unfold Backend.validateSharePin. unfold Backend.getShare in Hget.
    rewrite Hget, Hpin. unfold Backend.hashPin.
    now rewrite sha256_hex_truthy. }
  unfold BackendRoutes.deleteRoute. rewrite Hget, Htr.
  split; [now rewrite Hnone|]. split.
  - intros q Hq Hne.
    rewrite (backend_pin_round_trip st slug share p q Hp Hq Hget Hpin).
    apply String.eqb_neq in Hne. now rewrite Hne.
  - rewrite (backend_pin_round_trip st slug share p p Hp Hp Hget Hpin).
    rewrite String.eqb_refl. simpl.
    pose proof (backend_delete_get st slug) as Hgone.
    unfold Backend.deleteShare in *. unfold Backend.getShare in Hget.
    rewrite Hget in *.
    destruct (Fs.unlink_each _ _) as [d log]. simpl in *. auto.
Qed.

Lemma backend_delete_needs_the_pin_witness :
  let f := Backend.mkFileEntry "a.txt" "uploads/1-a.txt" 10 "text/plain"
             "1-a.txt" in
  let s := Backend.mkShare "id-1" [f] 1000 0 None
             (Some (Backend.hashPin "1234")) None
             (Backend.mkMetadata None None) in
  let st := Backend.mkState [("abc123"%string, s)]
              (Fs.mkDisk ["uploads/1-a.txt"%string] []) [] in
  BackendRoutes.deleteRoute st "abc123" None =
    (st, BackendRoutes.DeletePinRequired, []) /\
  BackendRoutes.deleteRoute st "abc123" (Some "0000"%string) =
    (st, BackendRoutes.DeletePinRequired, []) /\
  Backend.getShare
    (fst (fst (BackendRoutes.deleteRoute st "abc123" (Some "1234"%string))))
    "abc123" = None.
Proof.
  intros f s st.
  destruct (backend_delete_needs_the_pin st "abc123" s "1234" eq_refl
              eq_refl eq_refl) as (Hnone & Hother & _ & Hgone).
  split; [exact Hnone|]. split; [|exact Hgone].
  apply Hother; [reflexivity | discriminate].
Defined.

(** ** The backend: a pending deletion and a slug that is used again *)

Lemma backend_fire_timer_timers st :
  Backend.timers (Backend.fire_timer st) = tl (Backend.timers st).
Proof.
  unfold Backend.fire_timer.
  destruct (Backend.timers st) as [|k rest] eqn:E; [now rewrite E|].
  unfold Backend.deleteShare. simpl.
  destruct (JsMap.get (Backend.shares st) k); [|reflexivity].
  now destruct (Fs.unlink_each _ _).
Qed.

Lemma backend_fire_timer_absent st k :
  Backend.getShare st k = None ->
  Backend.getShare (Backend.fire_timer st) k = None.
Proof.
  intros H. unfold Backend.fire_timer.
  destruct (Backend.timers st) as [|j rest]; [exact H|].
  set (st0 := Backend.mkState (Backend.shares st) (Backend.disk st) rest).
  destruct (String.eqb_spec j k) as [->|Hne].
  - apply backend_delete_get.
  - rewrite backend_delete_get_other by congruence. exact H.
Qed.

Lemma backend_fire_n_absent n : forall st k,
  Backend.getShare st k = None ->
  Backend.getShare (BackendRoutes.fire_n n st) k = None.
Proof.
  induction n as [|n IH]; intros st k H; simpl; [exact H|].
  apply IH. now apply backend_fire_timer_absent.
Qed.

Lemma backend_fire_n_pending n : forall st k,
  List.length (Backend.timers st) = n -> In k (Backend.timers st) ->
  Backend.getShare (BackendRoutes.fire_n n st) k = None.
Proof.
  induction n as [|n IH]; intros st k Hlen Hin.
  - destruct (Backend.timers st); [contradiction | discriminate].
  - simpl. pose proof (backend_fire_timer_timers st) as Ht.
    destruct (Backend.timers st) as [|j rest] eqn:E; [contradiction|].
    simpl in Ht, Hlen. destruct Hin as [->|Hin].
    + apply backend_fire_n_absent. unfold Backend.fire_timer. rewrite E.
      apply backend_delete_get.
    + apply IH; rewrite Ht; [lia | exact Hin].
Qed.

(** X17. On the backend, the deletion that a limit-reaching download
    schedules is bound to the slug, not to the record: when a share is
    created under a slug for which a deletion is still pending (the
    earlier share being gone already), the new share is in the store, and
    it is removed once the pending timers have gone off. *)
Theorem backend_pending_deletion_hits_new_share st d env st' slug share :
  In slug (Backend.timers st) ->
  Backend.createShare st d env = Some (st', slug, share) ->
  Backend.getShare st' slug = Some share /\
  Backend.getShare (BackendRoutes.fire_all st') slug = None.
Proof.
  intros Hin. unfold Backend.createShare.
  destruct (Backend.generateSlug _ _ _) as [k|]; [|discriminate].
  intros [= <- <- <-]. split.
  - unfold Backend.getShare. simpl. apply map_get_set_same.
  - unfold BackendRoutes.fire_all. now apply backend_fire_n_pending.
Qed.

Lemma backend_pending_deletion_hits_new_share_witness :
  let f := Backend.mkFileEntry "b.txt" "uploads/2-b.txt" 20 "text/plain"
             "2-b.txt" in
  let st := Backend.mkState [] (Fs.mkDisk ["uploads/2-b.txt"%string] [])
              ["my-link"%string] in
  let d := Backend.mkShareData [f] (Some "my-link"%string) None None None
             None None in
  let env := Backend.mkEnv "id-2" 2000 2000 ["abc123"%string] in
  let share := Backend.mkShare "id-2" [f] 2000 0 None None None
                 (Backend.mkMetadata None None) in
  let st' := Backend.mkState [("my-link"%string, share)]
               (Fs.mkDisk ["uploads/2-b.txt"%string] []) ["my-link"%string] in
  Backend.getShare st' "my-link" = Some share /\
  Backend.getShare (BackendRoutes.fire_all st') "my-link" = None.
Proof.
  intros f st d env share st'.
  apply (backend_pending_deletion_hits_new_share st d env st' "my-link"
           share); [now left | reflexivity].
Defined.

(** ** The backend: the validation of an upload, on what [parseInt] reads *)

(** X14. On the backend, [POST /] of [routes/upload.js] with a PIN that
    is absent or has four digits: a [ttl] that [parseInt] reads as a
    number below 1 or above 10080, or a [maxDownloads] read as a number
    below 1 or above 1000, is answered with a validation error
    ([INVALID_TTL] or [INVALID_MAX_DOWNLOADS]), whatever [Number] makes
    of the field, and no share is created: the state is the one it
    was. *)
Theorem backend_upload_validates_ranges
  (toNumber : string -> Js.JsNum) st body f fs ua ipaddr env :
  (forall p, Backend.b_pin body = Some p -> Backend.validatePin p = true) ->
  (exists t k, Backend.b_ttl body = Some t /\ Js.str_truthy t = true /\
               Js.parseInt t = Js.Num k /\ (k < 1 \/ 10080 < k)%Z) \/
  (exists t k, Backend.b_maxDownloads body = Some t /\
               Js.str_truthy t = true /\
               Js.parseInt t = Js.Num k /\ (k < 1 \/ 1000 < k)%Z) ->
  exists r,
    Backend.upload toNumber st body (f :: fs) ua ipaddr env = Some (st, r) /\
    (r = Backend.InvalidTtl \/ r = Backend.InvalidMaxDownloads).
Proof.
  intros Hpin Hout. apply backend_upload_rejects_out_of_range.
  - unfold Backend.bad_pin_format.
    destruct (Backend.b_pin body) as [p|]; [|reflexivity].
    rewrite (Hpin p eq_refl). apply andb_false_r.
  - destruct Hout as [(t & k & -> & Htr & Hk & Hr)|(t & k & -> & Htr & Hk & Hr)];
      [left | right]; now apply backend_out_of_range with (k := k).
Qed.

Lemma backend_upload_validates_ranges_witness :
  let mf := Multer.mkFile "a.txt" "uploads/1-a.txt" 10 "text/plain"
              "1-a.txt" in
  let body := Backend.mkBody (Some "1234"%string) None (Some "60"%string)
                (Some "5000"%string) in
  let env := Backend.mkEnv "id-1" 1000 1000 ["abc123"%string] in
  exists r,
    Backend.upload Js.parseInt Backend.init body [mf] None None env =
      Some (Backend.init, r) /\
    (r = Backend.InvalidTtl \/ r = Backend.InvalidMaxDownloads).
Proof.
  intros mf body env.
  apply (backend_upload_validates_ranges Js.parseInt Backend.init body mf []
           None None env).
  - intros p [= <-]. reflexivity.
  - right. exists "5000"%string, 5000%Z.
    split; [reflexivity|]. split; [reflexivity|]. split; [reflexivity|].
    right. reflexivity.
Defined.

(** ** The backend: a download whose file is missing *)

(** X18. On the backend, a request for a share with one file that is no
    longer on the disk is answered [FILE_NOT_FOUND], and is counted all
    the same: [incrementDownloads] runs before the file is looked for, so
    the counter goes up, and when that reaches the limit the deletion is
    scheduled. *)
Theorem backend_missing_file_is_counted
  (toNumber : string -> Js.JsNum) st slug share f qpin hpin now :
  Backend.getShare st slug = Some share ->
  Backend.files share = [f] ->
  Fs.existsSync (Backend.disk st) (Backend.path f) = false ->
  Backend.pin share = None ->
  Backend.expired now share = false ->
  Backend.limit_reached toNumber share = false ->
  snd (Backend.download toNumber st slug qpin hpin now) =
    Backend.FileNotFound /\
  Backend.getShare (fst (Backend.download toNumber st slug qpin hpin now))
    slug = Some (Backend.bump share) /\
  Backend.timers (fst (Backend.download toNumber st slug qpin hpin now)) =
    if Backend.limit_reached toNumber (Backend.bump share)
    then (Backend.timers st ++ [slug])%list else Backend.timers st.
Proof.
  intros Hget Hfiles Hmiss Hpin Hex Hlim. unfold Backend.download.
  rewrite Hget, Hex, Hlim.
  assert (Hv : forall p, Backend.validateSharePin st slug p = true).
  { intros p. unfold Backend.validateSharePin.
    unfold Backend.getShare in Hget. now rewrite Hget, Hpin. }
  rewrite Hv. cbn [negb fst snd].
  split; [|split].
  - unfold Backend.serve. rewrite Hfiles.
    assert (Hd : Backend.disk (Backend.incrementDownloads toNumber st slug)
                 = Backend.disk st).
    { unfold Backend.incrementDownloads. unfold Backend.getShare in Hget.
      now rewrite Hget. }
    now rewrite Hd, Hmiss.
  - now apply backend_increment_get.
  - now apply backend_increment_schedules.
Qed.

Lemma backend_missing_file_is_counted_witness :
  let f := Backend.mkFileEntry "a.txt" "uploads/1-a.txt" 10 "text/plain"
             "1-a.txt" in
  let s := Backend.mkShare "id-1" [f] 1000 0 (Some "1"%string) None None
             (Backend.mkMetadata None None) in
  let st := Backend.mkState [("abc123"%string, s)] (Fs.mkDisk [] []) [] in
  snd (Backend.download Js.parseInt st "abc123" None None 2000) =
    Backend.FileNotFound /\
  Backend.getShare
    (fst (Backend.download Js.parseInt st "abc123" None None 2000)) "abc123"
    = Some (Backend.bump s) /\
  Backend.timers
    (fst (Backend.download Js.parseInt st "abc123" None None 2000)) =
    ["abc123"%string].
Proof.
  intros f s st.
  exact (backend_missing_file_is_counted Js.parseInt st "abc123" s f None
           None 2000 eq_refl eq_refl eq_refl eq_refl eq_refl eq_refl).
Defined.

(** ** [FileManager.js]: deleting files *)

Lemma deleteFile_is_unlink d p : FileManager.deleteFile d p = Fs.unlinkSync d p.
Proof.
  unfold FileManager.deleteFile, FileManager.fileExists, Fs.unlinkSync,
    Fs.existsSync.
  now destruct (Fs.mem p (Fs.present d)).
Qed.

Lemma filter_out_length p (l : list string) :
  NoDup l -> Fs.mem p l = true ->
  S (List.length (filter (fun q => negb (String.eqb p q)) l)) = List.length l.
Proof.
  unfold Fs.mem. induction l as [|x r IH]; simpl; [discriminate|].
  intros Hnd. inversion Hnd as [|? ? Hnotin Hnd']; subst.
  destruct (String.eqb_spec p x) as [->|Hne]; simpl.
  - intros _. f_equal.
    clear IH Hnd Hnd'. induction r as [|y r' IHr]; simpl; [reflexivity|].
    destruct (String.eqb_spec x y) as [->|Hy]; simpl.
    + exfalso. apply Hnotin. now left.
    + f_equal. apply IHr. intros H. apply Hnotin. now right.
  - intros H. f_equal. now apply IH.
Qed.

Lemma deleteFile_effect d p :
  NoDup (Fs.present d) ->
  NoDup (Fs.present (fst (FileManager.deleteFile d p))) /\
  Fs.locked (fst (FileManager.deleteFile d p)) = Fs.locked d /\
  (List.length (Fs.present (fst (FileManager.deleteFile d p))) +
   (if snd (FileManager.deleteFile d p) then 1 else 0)
   = List.length (Fs.present d))%nat /\
  snd (FileManager.deleteFile d p) =
    Fs.existsSync d p && negb (Fs.mem p (Fs.locked d)).
Proof.
  intros Hnd. rewrite deleteFile_is_unlink.
  unfold Fs.unlinkSync, Fs.existsSync.
  destruct (Fs.mem p (Fs.present d)) eqn:Hp; simpl;
    [|repeat split; auto].
  destruct (Fs.mem p (Fs.locked d)); simpl; [repeat split; auto|].
  repeat split.
  - now apply NoDup_filter.
  - rewrite Nat.add_1_r. now apply filter_out_length.
Qed.

Lemma deleteFiles_disk d paths :
  fst (FileManager.deleteFiles d paths) = fst (Fs.unlink_each d paths).
Proof.
  revert d. induction paths as [|p r IH]; intros d; simpl; [reflexivity|].
  rewrite deleteFile_is_unlink.
  destruct (Fs.unlinkSync d p) as [d1 ok]. specialize (IH d1).
  destruct (FileManager.deleteFiles d1 r) as [d2 n].
  destruct (Fs.unlink_each d1 r) as [d3 log]. exact IH.
Qed.

(** X19. [deleteFiles] of [FileManager.js] returns the number of files it
    removed: the disk holds that many files fewer; a path that is
    missing, listed twice, or that cannot be removed is not an error and
    is not counted; and a file is on the disk afterwards exactly when it
    was there before and was not listed, or cannot be removed. *)
Theorem deleteFiles_counts_removed paths : forall d,
  NoDup (Fs.present d) ->
  (snd (FileManager.deleteFiles d paths) <= List.length paths)%nat /\
  (List.length (Fs.present (fst (FileManager.deleteFiles d paths))) +
   snd (FileManager.deleteFiles d paths) = List.length (Fs.present d))%nat /\
  forall q,
    Fs.existsSync (fst (FileManager.deleteFiles d paths)) q =
    Fs.existsSync d q && (negb (Fs.mem q paths) || Fs.mem q (Fs.locked d)).
Proof.
  intros d Hnd.
  assert (H : (snd (FileManager.deleteFiles d paths) <= List.length paths)%nat
              /\
              (List.length (Fs.present (fst (FileManager.deleteFiles d paths)))
               + snd (FileManager.deleteFiles d paths)
               = List.length (Fs.present d))%nat).
  { revert d Hnd. induction paths as [|p r IH]; intros d Hnd; simpl.
    - lia.
    - destruct (deleteFile_effect d p Hnd) as (Hnd1 & _ & Hlen & _).
      destruct (FileManager.deleteFile d p) as [d1 ok]. simpl in *.
      specialize (IH d1 Hnd1).
      destruct (FileManager.deleteFiles d1 r) as [d2 n]. simpl in *.
      destruct ok; lia. }
  destruct H as [H1 H2]. split; [exact H1|]. split; [exact H2|].
  intros q. rewrite deleteFiles_disk. apply unlink_each_exists.
Qed.

Lemma deleteFiles_counts_removed_witness :
  let d := Fs.mkDisk ["u/a"; "u/b"; "u/c"]%string ["u/c"%string] in
  let paths := ["u/a"; "u/a"; "u/zz"; "u/c"]%string in
  (snd (FileManager.deleteFiles d paths) <= 4)%nat /\
  (List.length (Fs.present (fst (FileManager.deleteFiles d paths))) +
   snd (FileManager.deleteFiles d paths) = 3)%nat.
Proof.
  intros d paths.
  assert (Hnd : NoDup (Fs.present d)).
  { repeat constructor; simpl; intuition discriminate. }
  destruct (deleteFiles_counts_removed paths d Hnd) as (H1 & H2 & _).
  split; [exact H1 | exact H2].
Defined.


(** ** [Newsletter.js]: the addresses it accepts *)

Lemma plain_at_tidy c r :
  Newsletter.plain_at (String c r) = true ->
  Ascii.eqb c "@" = false /\ Js.is_space c = false.
Proof.
  unfold Newsletter.plain_at, Newsletter.ws_at.
  destruct (Js.is_space c); simpl; [discriminate|].
  intros H. apply andb_prop in H. destruct H as [_ H].
  apply negb_true_iff in H. auto.
Qed.

(** What [[^\s@]+] followed by [k] accepts is a non-empty tidy string
    followed by something [k] accepts. *)
Lemma plus_then_split k s :
  Newsletter.plus_then k s = true ->
  exists a b, s = (a ++ b)%string /\ a <> ""%string /\
              Newsletter.tidy a = true /\ k b = true.
Proof.
  induction s as [|c r IH]; simpl; [discriminate|].
  intros H. apply andb_prop in H. destruct H as [Hp H].
  change (Newsletter.plain_at (String c r) = true) in Hp.
  destruct (plain_at_tidy c r Hp) as [Hat Hsp].
  apply orb_prop in H. destruct H as [Hk|Hmore].
  - exists (String c ""), r. repeat split; [discriminate | | exact Hk].
    unfold Newsletter.tidy. simpl. now rewrite Hat, Hsp.
  - destruct (IH Hmore) as (a & b & -> & Ha & Ht & Hb).
    exists (String c a), b. repeat split; [discriminate | | exact Hb].
    unfold Newsletter.tidy in *. simpl. rewrite Hat, Hsp. exact Ht.
Qed.

Lemma char_then_split c k s :
  Newsletter.char_then c k s = true ->
  exists r, s = String c r /\ k r = true.
Proof.
  destruct s as [|a r]; simpl; [discriminate|].
  intros H. apply andb_prop in H. destruct H as [Ha Hk].
  apply Ascii.eqb_eq in Ha. subst. eauto.
Qed.

Lemma simple_plain c r :
  Newsletter.simple c = true -> Newsletter.plain_at (String c r) = true.
Proof.
  unfold Newsletter.simple, Newsletter.plain_at, Newsletter.ws_at,
    Js.is_space, Js.in_range.
  intros H. apply andb_prop in H. destruct H as [Hr Hat]. rewrite Hat.
  apply andb_prop in Hr. destruct Hr as [Hlo Hhi].
  apply Z.leb_le in Hlo, Hhi.
  assert (H1 : ((9 <=? Js.code c) && (Js.code c <=? 13))%Z = false).
  { apply andb_false_iff. right. apply Z.leb_gt. lia. }
  assert (H2 : (Js.code c =? 32)%Z = false) by (apply Z.eqb_neq; lia).
  rewrite H1, H2. simpl.
  assert (E1 : (Js.code c =? 194)%Z = false) by (apply Z.eqb_neq; lia).
  assert (E2 : (Js.code c =? 225)%Z = false) by (apply Z.eqb_neq; lia).
  assert (E3 : (Js.code c =? 226)%Z = false) by (apply Z.eqb_neq; lia).
  assert (E4 : (Js.code c =? 227)%Z = false) by (apply Z.eqb_neq; lia).
  assert (E5 : (Js.code c =? 239)%Z = false) by (apply Z.eqb_neq; lia).
  rewrite E1.
  destruct r as [|a1 [|a2 r2]]; try reflexivity.
  now rewrite E2, E3, E4, E5.
Qed.

(** A non-empty string of simple characters followed by something [k]
    accepts is accepted by [[^\s@]+] followed by [k]. *)
Lemma plus_then_simple k a b :
  a <> ""%string -> Js.all_chars Newsletter.simple a = true ->
  k b = true -> Newsletter.plus_then k (a ++ b) = true.
Proof.
  induction a as [|c r IH]; [congruence|]. intros _ Hall Hk. simpl in Hall.
  apply andb_prop in Hall. destruct Hall as [Hc Hr].
  change (Newsletter.plus_then k (String c (r ++ b)) = true).
  cbn [Newsletter.plus_then].
  change (Newsletter.plain_at (String c (r ++ b)) &&
          (k (r ++ b)%string || Newsletter.plus_then k (r ++ b)) = true).
  rewrite (simple_plain c _ Hc). simpl.
  destruct r as [|c' r'].
  - simpl. now rewrite Hk.
  - rewrite IH; [apply orb_true_r | discriminate | exact Hr | exact Hk].
Qed.

(** X20. [isValidEmail] of [Newsletter.js] accepts only addresses of the
    shape [local@domain.tld] with the three parts non-empty and free of
    ['@'] and of white space (so an accepted address has exactly one
    ['@'] and no line break); and it accepts every such address whose
    parts are made of printable ASCII characters. *)
Theorem valid_email_shape e :
  (Newsletter.isValidEmail e = true ->
   exists l m r,
     e = (l ++ "@" ++ m ++ "." ++ r)%string /\
     l <> ""%string /\ m <> ""%string /\ r <> ""%string /\
     Newsletter.tidy l = true /\ Newsletter.tidy m = true /\
     Newsletter.tidy r = true) /\
  (forall l m r,
     e = (l ++ "@" ++ m ++ "." ++ r)%string ->
     l <> ""%string -> m <> ""%string -> r <> ""%string ->
     Js.all_chars Newsletter.simple l = true ->
     Js.all_chars Newsletter.simple m = true ->
     Js.all_chars Newsletter.simple r = true ->
     Newsletter.isValidEmail e = true).
Proof.
  unfold Newsletter.isValidEmail. split.
  - intros H.
    apply plus_then_split in H. destruct H as (l & b1 & -> & Hl & Htl & H).
    apply char_then_split in H. destruct H as (b2 & -> & H).
    apply plus_then_split in H. destruct H as (m & b3 & -> & Hm & Htm & H).
    apply char_then_split in H. destruct H as (b4 & -> & H).
    apply plus_then_split in H. destruct H as (r & b5 & -> & Hr & Htr & H).
    destruct b5; [|discriminate].
    exists l, m, r. repeat split; auto.
    assert (E : forall x : string, (x ++ "")%string = x).
    { clear. induction x as [|c x IH]; simpl; [reflexivity | now rewrite IH]. }
    now rewrite E.
  - intros l m r -> Hl Hm Hr Hal Ham Har.
    apply plus_then_simple; [exact Hl | exact Hal |].
    simpl. apply plus_then_simple; [exact Hm | exact Ham |].
    simpl. assert (E : r = (r ++ "")%string).
    { clear. induction r as [|x r IH]; simpl; [reflexivity | now rewrite <- IH]. }
    rewrite E.
    apply plus_then_simple; [exact Hr | exact Har | reflexivity].
Qed.

Lemma valid_email_shape_witness :
  Newsletter.isValidEmail "ada@example.org" = true.
Proof.
  apply (proj2 (valid_email_shape "ada@example.org") "ada"%string
           "example"%string "org"%string);
    solve [reflexivity | discriminate].
Defined.

(** ** [Newsletter.js]: the list of subscribers *)

Lemma newsletter_save_subscribers st now ok :
  Newsletter.subscribers (Newsletter.saveSubscribers st now ok) =
  Newsletter.subscribers st.
Proof. unfold Newsletter.saveSubscribers. now destruct ok. Qed.

(** What a request does to the list. *)
Lemma newsletter_step_subscribers st op :
  Newsletter.subscribers (Newsletter.step st op) =
  match op with
  | Newsletter.OpSubscribe (Some e) now _ =>
      if Js.str_truthy e && Newsletter.isValidEmail e &&
         negb (JsMap.has (Newsletter.subscribers st) e)
      then JsMap.set (Newsletter.subscribers st) e
             (Newsletter.mkSubscriber e now "active" "website")
      else Newsletter.subscribers st
  | Newsletter.OpUnsubscribe (Some e) _ _ =>
      if Js.str_truthy e
      then JsMap.delete (Newsletter.subscribers st) e
      else Newsletter.subscribers st
  | _ => Newsletter.subscribers st
  end.
Proof.
  destruct op as [[e|] now ok|[e|] now ok]; simpl; try reflexivity.
  - unfold Newsletter.subscribe.
    destruct (Js.str_truthy e); [|reflexivity]. simpl.
    destruct (Newsletter.isValidEmail e); [|reflexivity]. simpl.
    destruct (JsMap.has (Newsletter.subscribers st) e); [reflexivity|].
    simpl. apply newsletter_save_subscribers.
  - unfold Newsletter.unsubscribe.
    destruct (Js.str_truthy e); [|reflexivity].
    destruct (JsMap.has (Newsletter.subscribers st) e) eqn:Hhas; simpl.
    + apply newsletter_save_subscribers.
    + symmetry. now apply map_delete_absent.
Qed.

Lemma newsletter_step_well_kept st op :
  Newsletter.well_kept st -> Newsletter.well_kept (Newsletter.step st op).
Proof.
  intros [Hwf Hall]. unfold Newsletter.well_kept.
  rewrite newsletter_step_subscribers.
  destruct op as [[e|] now ok|[e|] now ok]; try (split; assumption).
  - destruct (Js.str_truthy e && Newsletter.isValidEmail e &&
              negb (JsMap.has (Newsletter.subscribers st) e)) eqn:E;
      [|split; assumption].
    apply andb_prop in E. destruct E as [E Hfree].
    apply andb_prop in E. destruct E as [_ Hvalid].
    apply negb_true_iff in Hfree.
    split; [now apply map_set_nodup|].
    intros k s. rewrite (map_set_fresh _ _ _ Hfree). intros Hin.
    apply in_app_or in Hin. destruct Hin as [Hin|[[= <- <-]|[]]];
      [now apply Hall | simpl; auto].
  - destruct (Js.str_truthy e); [|split; assumption].
    split; [now apply map_delete_nodup|].
    intros k s Hin. apply filter_In in Hin. now apply Hall.
Qed.

(** X21. However subscribe and unsubscribe requests follow each other on
    a list that started empty, no address is on the list twice, and every
    subscriber on it is stored under its own address, which
    [isValidEmail] accepts, with the status [active] and the source
    [website]. *)
Theorem newsletter_list_is_well_kept ops :
  Newsletter.well_kept (Newsletter.run (Newsletter.load None) ops).
Proof.
  unfold Newsletter.run.
  assert (H : Newsletter.well_kept (Newsletter.load None)).
  { split; [constructor | intros k s []]. }
  revert H. generalize (Newsletter.load None).
  induction ops as [|op r IH]; intros st H; simpl; [exact H|].
  apply IH. now apply newsletter_step_well_kept.
Qed.

(** X22. A subscription that succeeded makes the list one longer; the
    same address is then refused with ['Email already subscribed'] and
    nothing changes; unsubscribing it succeeds and gives back the list
    that was there before, in the same order, after which the address is
    not found any more. *)
Theorem subscribe_then_unsubscribe st e now ok s st1 :
  Newsletter.subscribe st e now ok = (st1, Newsletter.Subscribed s) ->
  Newsletter.getSubscriberCount st1 = S (Newsletter.getSubscriberCount st) /\
  (forall now' ok',
     Newsletter.subscribe st1 e now' ok' = (st1, Newsletter.AlreadySubscribed))
  /\
  (forall now' ok',
     exists st2,
       Newsletter.unsubscribe st1 e now' ok' = (st2, true) /\
       Newsletter.subscribers st2 = Newsletter.subscribers st /\
       forall now2 ok2,
         Newsletter.unsubscribe st2 e now2 ok2 = (st2, false)).
Proof.
  unfold Newsletter.subscribe.
  destruct (Newsletter.isValidEmail e) eqn:Hvalid; [|discriminate]. simpl.
  destruct (JsMap.has (Newsletter.subscribers st) e) eqn:Hfree;
    [discriminate|].
  intros [= <- <-].
  set (sub := Newsletter.mkSubscriber e now "active" "website").
  assert (Hsub : Newsletter.subscribers
                   (Newsletter.saveSubscribers
                      (Newsletter.mkState
                         (JsMap.set (Newsletter.subscribers st) e sub)
                         (Newsletter.dataFile st)) now ok) =
                 (Newsletter.subscribers st ++ [(e, sub)])%list).
  { rewrite newsletter_save_subscribers. simpl. now apply map_set_fresh. }
  assert (Hhas : JsMap.has (Newsletter.subscribers st ++ [(e, sub)])%list e
                 = true).
  { rewrite <- (map_set_fresh _ _ sub Hfree). apply map_has_get.
    exists sub. apply map_get_set_same. }
  split; [|split].
  - unfold Newsletter.getSubscriberCount. rewrite Hsub, length_app. simpl.
    lia.
  - intros now' ok'. now rewrite Hsub, Hhas.
  - intros now' ok'. unfold Newsletter.unsubscribe at 1.
    rewrite Hsub, Hhas. eexists. split; [reflexivity|].
    assert (Hdel : JsMap.delete (Newsletter.subscribers st ++ [(e, sub)])%list
                     e = Newsletter.subscribers st).
    { unfold JsMap.delete. rewrite filter_app. simpl.
      rewrite String.eqb_refl. simpl. rewrite app_nil_r.
      now apply map_delete_absent. }
    split.
    + rewrite newsletter_save_subscribers. simpl. exact Hdel.
    + intros now2 ok2. unfold Newsletter.unsubscribe.
      rewrite newsletter_save_subscribers. simpl. now rewrite Hdel, Hfree.
Qed.

Lemma subscribe_then_unsubscribe_witness :
  let s := Newsletter.mkSubscriber "ada@example.org" "2024-01-01T00:00:00.000Z"
             "active" "website" in
  let st1 := Newsletter.mkState [("ada@example.org"%string, s)]
               (Some (Newsletter.mkDataFile [("ada@example.org"%string, s)]
                        "2024-01-01T00:00:00.000Z")) in
  Newsletter.getSubscriberCount st1 = 1%nat /\
  Newsletter.subscribe st1 "ada@example.org" "2024-01-02T00:00:00.000Z" true
    = (st1, Newsletter.AlreadySubscribed).
Proof.
  intros s st1.
  destruct (subscribe_then_unsubscribe (Newsletter.load None)
              "ada@example.org" "2024-01-01T00:00:00.000Z" true s st1
              eq_refl) as (Hcount & Hagain & _).
  split; [exact Hcount | apply Hagain].
Defined.

(** ** [Newsletter.js]: the data file *)

(** [new Map(entries)] of entries with different keys is the entries. *)
Lemma map_of_entries_nodup (es : list (string * Newsletter.Subscriber)) :
  forall m : JsMap.t Newsletter.Subscriber,
  NoDup (JsMap.keys (m ++ es)%list) ->
  fold_left (fun m e => JsMap.set m (fst e) (snd e)) es m = (m ++ es)%list.
Proof.
  induction es as [|[k v] r IH]; intros m Hnd; simpl.
  - now rewrite app_nil_r.
  - assert (Hfree : JsMap.has m k = false).
    { apply map_has_false. destruct (JsMap.get m k) as [v'|] eqn:E;
        [|reflexivity].
      apply map_get_in_keys in E. unfold JsMap.keys in *.
      rewrite map_app in Hnd. simpl in Hnd.
      apply NoDup_remove_2 in Hnd. exfalso. apply Hnd.
      apply in_or_app. now left. }
    rewrite (map_set_fresh _ _ _ Hfree), IH; rewrite <- app_assoc;
      [reflexivity | exact Hnd].
Qed.

Lemma map_of_entries_wf es : forall m : JsMap.t Newsletter.Subscriber,
  JsMap.wf m ->
  JsMap.wf (fold_left (fun m e => JsMap.set m (fst e) (snd e)) es m).
Proof.
  induction es as [|[k v] r IH]; intros m Hwf; simpl; [exact Hwf|].
  apply IH. now apply map_set_nodup.
Qed.

Lemma newsletter_load_wf file :
  JsMap.wf (Newsletter.subscribers (Newsletter.load file)).
Proof.
  destruct file as [f|]; simpl; [|constructor].
  apply map_of_entries_wf. constructor.
Qed.

Lemma newsletter_reload m :
  JsMap.wf m -> Newsletter.map_of_entries (JsMap.entries m) = m.
Proof.
  intros Hwf. unfold Newsletter.map_of_entries, JsMap.entries.
  now rewrite (map_of_entries_nodup m JsMap.empty Hwf).
Qed.

Lemma newsletter_step_wf st op :
  JsMap.wf (Newsletter.subscribers st) ->
  JsMap.wf (Newsletter.subscribers (Newsletter.step st op)).
Proof.
  intros Hwf. rewrite newsletter_step_subscribers.
  destruct op as [[e|] now ok|[e|] now ok]; try assumption.
  - destruct (_ && _); [now apply map_set_nodup | assumption].
  - destruct (Js.str_truthy e); [now apply map_delete_nodup | assumption].
Qed.

Lemma newsletter_saved_in_sync st now :
  JsMap.wf (Newsletter.subscribers st) ->
  Newsletter.in_sync (Newsletter.saveSubscribers st now true).
Proof.
  intros Hwf. unfold Newsletter.in_sync. simpl. now apply newsletter_reload.
Qed.

Lemma newsletter_step_in_sync st op :
  JsMap.wf (Newsletter.subscribers st) -> Newsletter.written op = true ->
  Newsletter.in_sync st -> Newsletter.in_sync (Newsletter.step st op).
Proof.
  intros Hwf Hok Hsync.
  destruct op as [[e|] now ok|[e|] now ok]; simpl in Hok; subst ok;
    try exact Hsync; cbn [Newsletter.step Newsletter.subscribeRoute
                          Newsletter.unsubscribeRoute].
  - unfold Newsletter.subscribe.
    destruct (Js.str_truthy e); [|exact Hsync].
    destruct (Newsletter.isValidEmail e); [|exact Hsync]. cbn [negb].
    destruct (JsMap.has (Newsletter.subscribers st) e); [exact Hsync|].
    cbn [fst]. apply newsletter_saved_in_sync. cbn.
    now apply map_set_nodup.
  - unfold Newsletter.unsubscribe.
    destruct (Js.str_truthy e); [|exact Hsync].
    destruct (JsMap.has (Newsletter.subscribers st) e); [|exact Hsync].
    cbn [fst]. apply newsletter_saved_in_sync. cbn.
    now apply map_delete_nodup.
Qed.

(** X23. The list survives a restart: after any requests during which
    the data file could be written, starting from any data file (or
    none), loading the data file gives the list the process holds,
    subscribers and order. *)
Theorem newsletter_survives_restart file ops :
  Forall (fun op => Newsletter.written op = true) ops ->
  Newsletter.subscribers
    (Newsletter.load
       (Newsletter.dataFile (Newsletter.run (Newsletter.load file) ops))) =
  Newsletter.subscribers (Newsletter.run (Newsletter.load file) ops).
Proof.
  intros Hall. unfold Newsletter.run.
  assert (H : JsMap.wf (Newsletter.subscribers (Newsletter.load file)) /\
              Newsletter.in_sync (Newsletter.load file)).
  { split; [apply newsletter_load_wf|]. now destruct file. }
  revert H. generalize (Newsletter.load file).
  induction Hall as [|op r Hop _ IH]; intros st [Hwf Hsync]; simpl;
    [exact Hsync|].
  apply IH. split; [now apply newsletter_step_wf|].
  now apply newsletter_step_in_sync.
Qed.

Lemma newsletter_survives_restart_witness :
  let ops := [Newsletter.OpSubscribe (Some "ada@example.org"%string) "t1" true;
              Newsletter.OpSubscribe (Some "bob@example.org"%string) "t2" true;
              Newsletter.OpUnsubscribe (Some "ada@example.org"%string) "t3"
                true] in
  Newsletter.subscribers
    (Newsletter.load
       (Newsletter.dataFile (Newsletter.run (Newsletter.load None) ops))) =
  [("bob@example.org"%string,
    Newsletter.mkSubscriber "bob@example.org" "t2" "active" "website")].
Proof.
  intros ops.
  refine (eq_trans (newsletter_survives_restart None ops _) eq_refl).
  repeat constructor.
Defined.



(** ** The backend: the download limit of a share, from its first request *)



(** What is sent depends on the files of the record and on the disk. *)
Lemma backend_serve_files d s s' :
  Backend.files s' = Backend.files s -> Backend.serve d s' = Backend.serve d s.
Proof. unfold Backend.serve. now intros ->. Qed.






